(** * Fraktalia port forwarder (scripts/mox-port-forward.py)

    A shallow embedding of the forwarder and the properties its
    specification states about it.

    The script is effectful throughout: it runs [docker], logs, dials and
    relays bytes between asyncio streams.  The embedding has three layers.

    - Python values and text ([pyobj], [strip], [splitlines], [py_int]).
    - Sequential code ([resolve_container_ip], [handle_connection], [main],
      the [__main__] block) in a monad [M] that records the effects a call
      performs, in order, together with how the call ends: it returns, it
      raises, or it stays suspended for ever.  What the outside world
      answers (the output of a [docker] command, the outcome of a dial,
      the traffic of a connection) is supplied by an [env].
    - Concurrent code ([pipe] and the [asyncio.gather] of the two pipes) as
      a state machine over the two connections of a relay, stepped by the
      events of the event loop (module [Relay]). *)

From Stdlib Require Import String Ascii List ZArith Bool Lia.
From Stdlib Require Import Strings.Byte.
From Stdlib Require QArith.
From ExtLib Require Import Structures.Monad Structures.MonadExc.
Import ListNotations MonadNotation.
Local Open Scope monad_scope.
Local Open Scope string_scope.
Local Open Scope Z_scope.
Local Open Scope list_scope.

Set Warnings "-register-all".

(** ** Exceptions *)

(** The exception classes the script can meet.  [is_OSError] and
    [is_Exception] are Python's subclass tests for the two classes the
    script names in its [except] clauses. *)
Inductive exn : Type :=
  | ConnectionResetError
  | BrokenPipeError
  | ConnectionRefusedError
  | TimeoutError
  | FileNotFoundError
  | OSError (errno : Z)
  | CalledProcessError (returncode : Z)
  | TimeoutExpired
  | JSONDecodeError
  | IndexError
  | KeyError
  | TypeError
  | AttributeError
  | ValueError
  | RuntimeError
  | CancelledError
  | KeyboardInterrupt
  | SystemExit (code : Z).

Definition is_OSError (e : exn) : bool :=
  match e with
  | ConnectionResetError | BrokenPipeError | ConnectionRefusedError
  | TimeoutError | FileNotFoundError | OSError _ => true
  | _ => false
  end.

(** [CancelledError], [KeyboardInterrupt] and [SystemExit] derive from
    [BaseException] only. *)
Definition is_Exception (e : exn) : bool :=
  match e with
  | CancelledError | KeyboardInterrupt | SystemExit _ => false
  | _ => true
  end.

(** ** Python values *)

(** What [json.loads] returns, and so what the resolver can return.  A
    dict keeps its insertion order, which is the order of the document. *)
Inductive pyobj : Type :=
  | PNone
  | PBool (b : bool)
  | PInt (n : Z)
  | PFloat (x : QArith_base.Q)
  | PStr (s : string)
  | PList (l : list pyobj)
  | PDict (items : list (string * pyobj)).

Definition is_empty (s : string) : bool :=
  match s with EmptyString => true | _ => false end.

(** Truth value of an object, as [if ip:] tests it. *)
Definition truthy (v : pyobj) : bool :=
  match v with
  | PNone => false
  | PBool b => b
  | PInt n => negb (n =? 0)
  | PFloat x => negb (QArith_base.Qeq_bool x (QArith_base.Qmake 0 1))
  | PStr s => negb (is_empty s)
  | PList l => match l with [] => false | _ => true end
  | PDict d => match d with [] => false | _ => true end
  end.

Fixpoint assoc (k : string) (items : list (string * pyobj)) : option pyobj :=
  match items with
  | [] => None
  | (k', v) :: rest => if String.eqb k k' then Some v else assoc k rest
  end.

(** ** Text *)

(** Text is a [string]: a sequence of characters with code points below
    256.  [str.isspace] there: TAB, LF, VT, FF, CR, FS, GS, RS, US, space,
    NEL (133) and the no-break space (160). *)
Definition is_space (c : ascii) : bool :=
  let n := N_of_ascii c in
  ((9 <=? n) && (n <=? 13) || (28 <=? n) && (n <=? 32)
   || (n =? 133) || (n =? 160))%N.

(** The line boundaries of [str.splitlines] there: LF, VT, FF, CR, FS, GS,
    RS and NEL. *)
Definition is_linebreak (c : ascii) : bool :=
  let n := N_of_ascii c in
  ((10 <=? n) && (n <=? 13) || (28 <=? n) && (n <=? 30) || (n =? 133))%N.

Definition LF : ascii := ascii_of_N 10.
Definition CR : ascii := ascii_of_N 13.

Fixpoint lstrip (s : string) : string :=
  match s with
  | EmptyString => EmptyString
  | String c s' => if is_space c then lstrip s' else s
  end.

Fixpoint rstrip (s : string) : string :=
  match s with
  | EmptyString => EmptyString
  | String c s' =>
      match rstrip s' with
      | EmptyString => if is_space c then EmptyString else String c EmptyString
      | t => String c t
      end
  end.

(** [str.strip()] *)
Definition strip (s : string) : string := rstrip (lstrip s).

(** [str.splitlines()]: the lines without their line breaks; CR LF is one
    break; no empty last line after a final break. *)
Fixpoint splitlines (s : string) : list string :=
  match s with
  | EmptyString => []
  | String c s' =>
      if is_linebreak c then
        EmptyString ::
          match s' with
          | EmptyString => []
          | String c' s'' =>
              if Ascii.eqb c CR && Ascii.eqb c' LF then splitlines s''
              else splitlines s'
          end
      else
        match splitlines s' with
        | [] => [String c EmptyString]
        | l :: ls => String c l :: ls
        end
  end.

Definition is_digit (c : ascii) : bool :=
  let n := N_of_ascii c in ((48 <=? n) && (n <=? 57))%N.

Definition digit_value (c : ascii) : Z := Z.of_N (N_of_ascii c) - 48.

(** The white space [int] skips around the number: TAB, LF, VT, FF, CR
    and space, and, as they are turned into spaces first, NEL (133) and
    the no-break space (160).  FS, GS, RS and US are not skipped. *)
Definition is_int_space (c : ascii) : bool :=
  let n := N_of_ascii c in
  ((9 <=? n) && (n <=? 13) || (n =? 32) || (n =? 133) || (n =? 160))%N.

Fixpoint int_lstrip (s : string) : string :=
  match s with
  | EmptyString => EmptyString
  | String c s' => if is_int_space c then int_lstrip s' else s
  end.

Fixpoint int_rstrip (s : string) : string :=
  match s with
  | EmptyString => EmptyString
  | String c s' =>
      match int_rstrip s' with
      | EmptyString =>
          if is_int_space c then EmptyString else String c EmptyString
      | t => String c t
      end
  end.

(** [sys.int_info.default_max_str_digits] *)
Definition MAX_STR_DIGITS : Z := 4300.

(** The digits of [int(s)]: at least one digit, single underscores
    allowed between digits only, at most [MAX_STR_DIGITS] digits.
    [prev] tells whether the character before was a digit, [count] how
    many digits were read. *)
Fixpoint parse_digits (s : string) (acc : Z) (prev : bool) (count : Z)
  : option Z :=
  match s with
  | EmptyString =>
      if prev && (count <=? MAX_STR_DIGITS) then Some acc else None
  | String c r =>
      if is_digit c then
        parse_digits r (10 * acc + digit_value c) true (count + 1)
      else if Ascii.eqb c "_" then
        if prev then parse_digits r acc false count else None
      else None
  end.

(** [int(s)] in base 10: surrounding white space, an optional sign, the
    digits.  [None] stands for the [ValueError] that [int] raises.  No
    character between 128 and 255 is a decimal digit. *)
Definition py_int (s : string) : option Z :=
  match int_rstrip (int_lstrip s) with
  | String "+" r => parse_digits r 0 false 0
  | String "-" r => option_map Z.opp (parse_digits r 0 false 0)
  | t => parse_digits t 0 false 0
  end.

(** ** Effects *)

Inductive level : Type := DEBUG | INFO | WARNING | ERROR.

Inductive side : Type := Client | Upstream.

(** [writer.get_extra_info("peername")]: the peer's host and port, or
    [None] once the transport has gone. *)
Definition peername : Type := option (string * Z).

(** The parts of a formatted log message: the literal text of the f-string
    and the values it interpolates. *)
Inductive frag : Type :=
  | Lit (s : string)
  | FInt (n : Z)
  | FInts (l : list Z)
  | FObj (v : pyobj)
  | FPeer (p : peername)
  | FExn (e : exn).

(** What a call does to the outside world. *)
Inductive effect : Type :=
  | Log (lvl : level) (msg : list frag)
  | Subprocess (argv : list string) (timeout : Z)
  | Connect (host : pyobj) (port : Z) (timeout : Z)
  | Close (s : side)
  | Listen (host : string) (port : Z).

Definition is_Log (x : effect) : bool :=
  match x with Log _ _ => true | _ => false end.

Definition is_Connect (x : effect) : bool :=
  match x with Connect _ _ _ => true | _ => false end.

Definition is_Listen (x : effect) : bool :=
  match x with Listen _ _ => true | _ => false end.

Definition is_Subprocess (x : effect) : bool :=
  match x with Subprocess _ _ => true | _ => false end.

(** How a call ends.  [Hang]: the coroutine is suspended and nothing will
    ever resume it. *)
Inductive outcome (A : Type) : Type :=
  | Ret (a : A)
  | Raise (e : exn)
  | Hang.
Arguments Ret {A} a.
Arguments Raise {A} e.
Arguments Hang {A}.

(** A computation: the effects it performs, in order, and its outcome. *)
Definition M (A : Type) : Type := (list effect * outcome A)%type.

Definition M_bind {A B} (m : M A) (f : A -> M B) : M B :=
  match snd m with
  | Ret a => (fst m ++ fst (f a), snd (f a))
  | Raise e => (fst m, Raise e)
  | Hang => (fst m, Hang)
  end.

(** [try: m except: h]; the handler decides which classes it catches by
    raising the others again. *)
Definition M_catch {A} (m : M A) (h : exn -> M A) : M A :=
  match snd m with
  | Raise e => (fst m ++ fst (h e), snd (h e))
  | _ => m
  end.

#[export] Instance Monad_M : Monad M :=
  {| ret := fun A a => ([], Ret a); bind := @M_bind |}.

#[export] Instance Exc_M : MonadExc exn M :=
  {| raise := fun A e => ([], Raise e); catch := @M_catch |}.

Definition emit (x : effect) : M unit := ([x], Ret tt).

Definition log (lvl : level) (msg : list frag) : M unit := emit (Log lvl msg).

(** An operation whose result the outside world decides. *)
Definition lift {A} (r : exn + A) : M A :=
  match r with inl e => raise e | inr a => ret a end.

Definition trace {A} (m : M A) : list effect := fst m.
Definition result {A} (m : M A) : outcome A := snd m.

(** ** The outside world *)

(** [docker_ps]: what [check_output(["docker","ps","-q","-f","name=..."])]
    yields: the text, or the exception raised (non-zero exit, timeout,
    docker missing).  [docker_inspect id]: the same for
    [["docker","inspect",id]].  [json_loads]: [json.loads], which is not
    re-implemented here: its result on each text is supplied.
    [dial host port]: how [wait_for(open_connection(host, port), 5)]
    ends, [None] when the connection is made in time.
    [bind_port port]: how [asyncio.start_server] ends on a port this
    process does not listen on yet.  The sockets the process holds are
    not tracked: what is said of the ports that are served is said of
    distinct ports.
    [interrupted]: whether the user interrupts the process while its
    listeners serve. *)
Record env : Type := {
  docker_ps : exn + string;
  docker_inspect : string -> exn + string;
  json_loads : string -> exn + pyobj;
  dial : pyobj -> Z -> option exn;
  bind_port : Z -> option exn;
  interrupted : bool
}.

(** ** Address resolver *)

Definition CONTAINER_PREFIX : string := "openclaw-sbx-agent-mox-".
Definition DEFAULT_PORTS : list Z := [9000].
Definition BUF_SIZE : Z := 65536.

(** [subprocess.check_output(argv, text=True, timeout=t)] *)
Definition check_output (argv : list string) (t : Z) (res : exn + string)
  : M string :=
  emit (Subprocess argv t) ;; lift res.

(** [l[0]] on a list of strings *)
Definition lines_getitem0 (l : list string) : M string :=
  match l with
  | [] => raise IndexError
  | x :: _ => ret x
  end.

(** [data[0]] *)
Definition getitem0 (data : pyobj) : M pyobj :=
  match data with
  | PList [] => raise IndexError
  | PList (x :: _) => ret x
  | PStr EmptyString => raise IndexError
  | PStr (String c _) => ret (PStr (String c EmptyString))
  | PDict _ => raise KeyError
  | PNone | PBool _ | PInt _ | PFloat _ => raise TypeError
  end.

(** [d.get(key, default)]; only a dict has [get]. *)
Definition dict_get (d : pyobj) (key : string) (default : pyobj) : M pyobj :=
  match d with
  | PDict items =>
      ret (match assoc key items with Some v => v | None => default end)
  | _ => raise AttributeError
  end.

(** [d.values()] *)
Definition dict_values (d : pyobj) : M (list pyobj) :=
  match d with
  | PDict items => ret (map snd items)
  | _ => raise AttributeError
  end.

(** Lines 53-56: the loop over the networks; [PNone] is Python's [None],
    returned at line 59 when the loop ends without an address. *)
Fixpoint first_ip (nets : list pyobj) : M pyobj :=
  match nets with
  | [] => ret PNone
  | net :: rest =>
      ip <- dict_get net "IPAddress" PNone ;;
      if truthy ip then ret ip else first_ip rest
  end.

Definition ps_argv : list string :=
  ["docker"; "ps"; "-q"; "-f"; String.append "name=" CONTAINER_PREFIX].

Definition inspect_argv (container_id : string) : list string :=
  ["docker"; "inspect"; container_id].

(** Lines 38-56: the body of the [try]. *)
Definition resolve_body (w : env) : M pyobj :=
  out <- check_output ps_argv 5 (docker_ps w) ;;
  let out := strip out in
  if is_empty out then ret PNone
  else
    container_id <- lines_getitem0 (splitlines out) ;;
    info <- check_output (inspect_argv container_id) 5
                         (docker_inspect w container_id) ;;
    data <- lift (json_loads w info) ;;
    d0 <- getitem0 data ;;
    settings <- dict_get d0 "NetworkSettings" (PDict []) ;;
    networks <- dict_get settings "Networks" (PDict []) ;;
    nets <- dict_values networks ;;
    first_ip nets.

(** Lines 35-59: [except Exception as e] logs at debug level and the
    function returns [None]; an exception outside [Exception] passes. *)
Definition resolve_container_ip (w : env) : M pyobj :=
  catch (resolve_body w)
        (fun e =>
           if is_Exception e then
             log DEBUG [Lit "resolve_container_ip error: "; FExn e] ;;
             ret PNone
           else raise e).

(** ** Stream relay *)

(** The two [pipe] coroutines that [handle_connection] gathers run
    interleaved on the event loop, over the two connections of the relay.
    A connection is one asyncio transport with the [StreamReader] and the
    [StreamWriter] built on it: the reader and the writer of a connection
    are two views of the same object, so that closing the writer is seen
    by the reader. *)
Module Relay.

(** One connection, as the forwarder holds it.
    [rbuf]: the reader's buffer, bytes that arrived and were not read.
    [reof]: [feed_eof] was called.  [rexc]: [set_exception] was called.
    [closed]: the transport is closed, by [close()] or by a lost
    connection.  [wire]: the bytes the transport accepted from
    [write], in order: what the peer receives, the last of them when it
    takes them.
    [paused]: the peer is not taking the data, the transport holds some
    of [wire] in its buffer and has called [pause_writing]; a closed
    connection that is still paused is closing, its [connection_lost]
    is yet to come.
    Two fields are history only, no operation reads them:
    [fed], every byte that ever entered the reader, and [dropped], the
    bytes given to [write] after the transport was closed. *)
Record conn : Type := mkConn {
  rbuf : list byte;
  reof : bool;
  rexc : option exn;
  closed : bool;
  wire : list byte;
  fed : list byte;
  dropped : list byte;
  paused : bool
}.

Definition fresh : conn := mkConn [] false None false [] [] [] false.

(** *** What the peer and the network do to a connection *)

(** [data_received]: the transport no longer reads once it is closed,
    and a peer sends nothing after its end of stream. *)
Definition feed_data (data : list byte) (c : conn) : conn :=
  if closed c || reof c then c
  else mkConn (rbuf c ++ data) (reof c) (rexc c) (closed c)
              (wire c) (fed c ++ data) (dropped c) (paused c).

(** [eof_received]: the peer closed its write side. *)
Definition feed_eof (c : conn) : conn :=
  if closed c then c
  else mkConn (rbuf c) true (rexc c) (closed c) (wire c) (fed c) (dropped c)
              (paused c).

(** [connection_lost(e)]: a transport error, on an open connection or
    on a closing one that was still sending its buffer.  What the
    buffer held is lost with it. *)
Definition connection_lost (e : exn) (c : conn) : conn :=
  if closed c && negb (paused c) then c
  else mkConn (rbuf c) (reof c) (Some e) true (wire c) (fed c) (dropped c)
              false.

(** [pause_writing]: the buffer of the transport went over its high
    water mark.  A closed transport accepts no data, so that its buffer
    does not grow. *)
Definition pause_writing (c : conn) : conn :=
  if closed c then c
  else mkConn (rbuf c) (reof c) (rexc c) (closed c) (wire c) (fed c)
              (dropped c) true.

(** [resume_writing]: the peer took the buffered data.  A closing
    transport has then sent everything: its [connection_lost(None)]
    feeds the end of stream to the reader of the same connection. *)
Definition resume_writing (c : conn) : conn :=
  if paused c then
    mkConn (rbuf c) (if closed c then true else reof c) (rexc c) (closed c)
           (wire c) (fed c) (dropped c) false
  else c.

(** *** The stream operations [pipe] calls *)

Inductive read_result : Type :=
  | Blocked
  | ReadRaise (e : exn)
  | Data (d : list byte).

(** [await reader.read(n)], [n > 0]: raises the stored exception; waits
    while the buffer is empty and no end of stream was fed; else gives
    up to [n] buffered bytes, none at end of stream. *)
Definition read (n : Z) (c : conn) : read_result * conn :=
  match rexc c with
  | Some e => (ReadRaise e, c)
  | None =>
      match rbuf c with
      | [] => if reof c then (Data [], c) else (Blocked, c)
      | _ =>
          (Data (firstn (Z.to_nat n) (rbuf c)),
           mkConn (skipn (Z.to_nat n) (rbuf c)) (reof c) (rexc c)
                  (closed c) (wire c) (fed c) (dropped c) (paused c))
      end
  end.

(** [writer.write(data)]: a closed transport discards the data. *)
Definition write (data : list byte) (c : conn) : conn :=
  if closed c then
    mkConn (rbuf c) (reof c) (rexc c) (closed c) (wire c) (fed c)
           (dropped c ++ data) (paused c)
  else
    mkConn (rbuf c) (reof c) (rexc c) (closed c) (wire c ++ data) (fed c)
           (dropped c) (paused c).

(** What an [await] on the writer comes to when the coroutine is
    resumed: it returns, it raises, or the coroutine stays suspended. *)
Inductive wait_result : Type :=
  | Ready
  | Raises (e : exn)
  | Wait.

(** [await writer.drain()]: raises the reader's exception; waits while
    the transport is paused; raises [ConnectionResetError] once the
    connection is lost. *)
Definition drain (c : conn) : wait_result :=
  match rexc c with
  | Some e => Raises e
  | None =>
      if paused c then Wait
      else if closed c then Raises ConnectionResetError
      else Ready
  end.

(** [writer.close()]: closes the transport.  With nothing left to send
    its [connection_lost(None)] follows and feeds the end of stream to
    the reader of the same connection; a paused transport sends its
    buffer first. *)
Definition close (c : conn) : conn :=
  if closed c then c
  else mkConn (rbuf c) (if paused c then reof c else true) (rexc c) true
              (wire c) (fed c) (dropped c) (paused c).

(** [await writer.wait_closed()], after [close()]: waits for
    [connection_lost], and raises the error the connection was lost
    with, if any. *)
Definition wait_closed (c : conn) : wait_result :=
  match rexc c with
  | Some e => Raises e
  | None => if paused c then Wait else Ready
  end.

(** *** [pipe], lines 62-78 *)

(** Where a [pipe] coroutine stands: at its [await] of line 66, of line
    70, in the [finally] of lines 74-76 (with the exception that left
    the [try], if it was not caught), or finished. *)
Inductive pc : Type :=
  | AtRead
  | AtDrain
  | AtClose (pending : option exn)
  | Finished (raised : option exn).

(** Lines 71-72: [except (ConnectionResetError, BrokenPipeError,
    OSError): pass]; anything else leaves the [try] and goes through
    the [finally]. *)
Definition on_error (e : exn) : pc :=
  if is_OSError e then AtClose None else AtClose (Some e).

(** One resumption of [pipe(reader, writer)], up to its next [await].
    [r] is the connection of [reader], [w] that of [writer]. *)
Definition pipe_step (p : pc) (r w : conn) : pc * conn * conn :=
  match p with
  | AtRead =>
      match read BUF_SIZE r with
      | (Blocked, _) => (AtRead, r, w)
      | (ReadRaise e, _) => (on_error e, r, w)
      | (Data [], r') => (AtClose None, r', w)
      | (Data data, r') => (AtDrain, r', write data w)
      end
  | AtDrain =>
      match drain w with
      | Ready => (AtRead, r, w)
      | Raises e => (on_error e, r, w)
      | Wait => (AtDrain, r, w)
      end
  | AtClose pending =>
      let w' := close w in
      match wait_closed w' with
      | Ready => (Finished pending, r, w')
      | Raises e =>
          if is_Exception e then (Finished pending, r, w')
          else (Finished (Some e), r, w')
      | Wait => (AtClose pending, r, w')
      end
  | Finished x => (Finished x, r, w)
  end.

(** *** [asyncio.gather] of the two pipes, lines 103-106 *)

Inductive dir : Type := C2B | B2C.

(** [c2b] is [pipe(client_reader, upstream_writer)], [b2c] is
    [pipe(upstream_reader, client_writer)].  [gather_exc]: the first
    exception a pipe raised, which [gather] hands to its caller at
    once. *)
Record state : Type := mkState {
  client : conn;
  upstream : conn;
  c2b : pc;
  b2c : pc;
  gather_exc : option exn
}.

Definition established : state := mkState fresh fresh AtRead AtRead None.

(** What happens on the event loop of a relay: the peer on side [s]
    delivers bytes, ends its stream, or its connection fails with [e];
    the peer on side [s] stops taking data, or takes what was held for
    it; the loop resumes the pipe of direction [d].  Every interleaving
    is a schedule.  Cancellation of a task is not among the events. *)
Inductive event : Type :=
  | Recv (s : side) (data : list byte)
  | RecvEof (s : side)
  | Lost (s : side) (e : exn)
  | Pause (s : side)
  | Resume (s : side)
  | Run (d : dir).

Definition on_conn (s : side) (f : conn -> conn) (st : state) : state :=
  match s with
  | Client =>
      mkState (f (client st)) (upstream st) (c2b st) (b2c st) (gather_exc st)
  | Upstream =>
      mkState (client st) (f (upstream st)) (c2b st) (b2c st) (gather_exc st)
  end.

Definition note_exc (g : option exn) (p : pc) : option exn :=
  match g with
  | Some _ => g
  | None => match p with Finished (Some e) => Some e | _ => None end
  end.

Definition step (st : state) (ev : event) : state :=
  match ev with
  | Recv s data => on_conn s (feed_data data) st
  | RecvEof s => on_conn s feed_eof st
  | Lost s e => on_conn s (connection_lost e) st
  | Pause s => on_conn s pause_writing st
  | Resume s => on_conn s resume_writing st
  | Run C2B =>
      let '(p, r, w) := pipe_step (c2b st) (client st) (upstream st) in
      mkState r w p (b2c st) (note_exc (gather_exc st) p)
  | Run B2C =>
      let '(p, r, w) := pipe_step (b2c st) (upstream st) (client st) in
      mkState w r (c2b st) p (note_exc (gather_exc st) p)
  end.

Definition run (es : list event) (st : state) : state :=
  fold_left step es st.

Definition task (d : dir) (st : state) : pc :=
  match d with C2B => c2b st | B2C => b2c st end.

(** The connection a direction reads from, and the one it writes to. *)
Definition source (d : dir) (st : state) : conn :=
  match d with C2B => client st | B2C => upstream st end.

Definition dest (d : dir) (st : state) : conn :=
  match d with C2B => upstream st | B2C => client st end.

Definition other (d : dir) : dir :=
  match d with C2B => B2C | B2C => C2B end.

Definition finished (p : pc) : bool :=
  match p with Finished _ => true | _ => false end.

Inductive gather_status : Type :=
  | Pending
  | Returned
  | Raised (e : exn).

(** [gather] without [return_exceptions]: it raises as soon as one pipe
    has raised, and returns when both have returned. *)
Definition gather_result (st : state) : gather_status :=
  match gather_exc st with
  | Some e => Raised e
  | None => if finished (c2b st) && finished (b2c st) then Returned
            else Pending
  end.

Definition is_Lost (ev : event) : bool :=
  match ev with Lost _ _ => true | _ => false end.

(** The events by which the peer on side [s] ends its stream: its end
    of stream, or an error of its connection. *)
Definition ends (s : side) (ev : event) : bool :=
  match ev, s with
  | RecvEof Client, Client | RecvEof Upstream, Upstream => true
  | Lost Client _, Client | Lost Upstream _, Upstream => true
  | _, _ => false
  end.

End Relay.

(** ** Connection handler *)

(** [await asyncio.wait_for(asyncio.open_connection(ip, port), timeout=5)],
    lines 95-97. *)
Definition open_connection (w : env) (ip : pyobj) (port : Z) : M unit :=
  emit (Connect ip port 5) ;;
  match dial w ip port with
  | Some e => raise e
  | None => ret tt
  end.

Definition hang {A} : M A := ([], Hang).

(** [await asyncio.gather(pipe(client_reader, upstream_writer),
    pipe(upstream_reader, client_writer))], lines 103-106.  [sched] is
    everything that happens on the two connections from then on; when
    the pipes have not let [gather] complete by its end, nothing will. *)
Definition gather_pipes (sched : list Relay.event) : M unit :=
  match Relay.gather_result (Relay.run sched Relay.established) with
  | Relay.Pending => hang
  | Relay.Returned => ret tt
  | Relay.Raised e => raise e
  end.

(** Lines 81-107.  The [except Exception] of line 98 returns from the
    function: [connected] tells whether the dial went through. *)
Definition handle_connection (w : env) (sched : list Relay.event)
    (peer : peername) (port : Z) : M unit :=
  ip <- resolve_container_ip w ;;
  if negb (truthy ip) then
    log WARNING [Lit "[:"; FInt port; Lit "] "; FPeer peer;
                 Lit " → no Mox container running, refusing"] ;;
    emit (Close Client)
  else
    log INFO [Lit "[:"; FInt port; Lit "] "; FPeer peer; Lit " → ";
              FObj ip; Lit ":"; FInt port] ;;
    connected <-
      catch (open_connection w ip port ;; ret true)
            (fun e =>
               if is_Exception e then
                 log WARNING [Lit "[:"; FInt port; Lit "] "; FPeer peer;
                              Lit " → connect to "; FObj ip; Lit ":";
                              FInt port; Lit " failed: "; FExn e] ;;
                 emit (Close Client) ;;
                 ret false
               else raise e) ;;
    if connected : bool then
      gather_pipes sched ;;
      log INFO [Lit "[:"; FInt port; Lit "] "; FPeer peer; Lit " closed"]
    else ret tt.

(** ** Listeners and process entry *)

(** Lines 110-118: bind, log, then serve for ever. *)
Definition start_forwarder (w : env) (port : Z) : M unit :=
  emit (Listen "0.0.0.0" port) ;;
  match bind_port w port with
  | Some e => raise e
  | None => ret tt
  end ;;
  log INFO [Lit "Forwarding 0.0.0.0:"; FInt port; Lit " → mox-container:";
            FInt port] ;;
  hang.

(** [await asyncio.gather] over a list of tasks: every task is started;
    the effects are listed task by task; the call raises the exception
    of the first task in the list that raised, returns if all returned,
    and stays suspended otherwise. *)
Fixpoint gather_all (tasks : list (M unit)) : M unit :=
  match tasks with
  | [] => ret tt
  | t :: rest =>
      let r := gather_all rest in
      (fst t ++ fst r,
       match snd t, snd r with
       | Raise e, _ => Raise e
       | _, Raise e => Raise e
       | Hang, _ => Hang
       | _, Hang => Hang
       | Ret _, Ret _ => Ret tt
       end)
  end.

(** Lines 121-128. *)
Definition main (w : env) (ports : list Z) : M unit :=
  log INFO [Lit "Fraktalia Port Forwarder starting — ports: "; FInts ports] ;;
  ip <- resolve_container_ip w ;;
  (if truthy ip then log INFO [Lit "Mox container found at "; FObj ip]
   else log WARNING
          [Lit "No Mox container running (will resolve per-connection)"]) ;;
  gather_all (map (start_forwarder w) ports).

(** [asyncio.run(coro)]: when the user interrupts a coroutine that
    serves for ever, the main task is cancelled and [asyncio.run] raises
    [KeyboardInterrupt].  An interrupt that arrives earlier, while
    [main] is still in its blocking resolution, is not among the
    behaviours described. *)
Definition asyncio_run (w : env) (coro : M unit) : M unit :=
  match snd coro with
  | Hang => if interrupted w then (fst coro, Raise KeyboardInterrupt)
            else coro
  | _ => coro
  end.

(** Line 132: [[int(p) for p in sys.argv[1:]]]. *)
Fixpoint parse_ports (args : list string) : M (list Z) :=
  match args with
  | [] => ret []
  | p :: rest =>
      n <- match py_int p with
           | Some n => ret n
           | None => raise ValueError
           end ;;
      ns <- parse_ports rest ;;
      ret (n :: ns)
  end.

Definition in_range (p : Z) : bool := (9000 <=? p) && (p <=? 9099).

(** Lines 133-136. *)
Fixpoint check_ports (ports : list Z) : M unit :=
  match ports with
  | [] => ret tt
  | p :: rest =>
      if negb (in_range p) then
        log ERROR [Lit "Port "; FInt p;
                   Lit " outside Fraktalia range 9000-9099, aborting"] ;;
        raise (SystemExit 1)
      else check_ports rest
  end.

(** Lines 131-140, the [__main__] block; [argv] is [sys.argv]. *)
Definition script (w : env) (argv : list string) : M unit :=
  ports <- (if (1 <? Z.of_nat (length argv)) then parse_ports (tl argv)
            else ret DEFAULT_PORTS) ;;
  check_ports ports ;;
  catch (asyncio_run w (main w ports))
        (fun e =>
           match e with
           | KeyboardInterrupt => log INFO [Lit "Shutting down"]
           | _ => raise e
           end).

(** The exit status of the interpreter: 0 at the end of the script, the
    code of [sys.exit], 1 after an uncaught exception; none while the
    process runs. *)
Definition exit_status (o : outcome unit) : option Z :=
  match o with
  | Ret _ => Some 0
  | Raise (SystemExit c) => Some c
  | Raise _ => Some 1
  | Hang => None
  end.

(** ** Vocabulary of the statements *)

Fixpoint string_forall (f : ascii -> bool) (s : string) : bool :=
  match s with
  | EmptyString => true
  | String c r => f c && string_forall f r
  end.

(** A container identifier as [docker ps -q] prints it: not empty, no
    white space. *)
Definition is_container_id (s : string) : bool :=
  negb (is_empty s) && string_forall (fun c => negb (is_space c)) s.

(** The output of [docker ps -q]: one identifier per line. *)
Fixpoint listing (ids : list string) : string :=
  match ids with
  | [] => EmptyString
  | id :: rest => String.append id (String LF (listing rest))
  end.

(** A network of the descriptor that reports no address: a dict whose
    ["IPAddress"] is missing or false. *)
Definition no_address (net : pyobj) : bool :=
  match net with
  | PDict items =>
      negb (truthy (match assoc "IPAddress" items with
                    | Some v => v
                    | None => PNone
                    end))
  | _ => false
  end.

(** The listeners [main] starts, lines 110-118 and 128. *)
Definition listeners (w : env) (ports : list Z) : M unit :=
  gather_all (map (start_forwarder w) ports).

(** A schedule in which every lost connection is lost with a transport
    error ([OSError] or a subclass). *)
Definition transport_errors_only (es : list Relay.event) : bool :=
  forallb (fun ev => match ev with
                     | Relay.Lost _ e => is_OSError e
                     | _ => true
                     end) es.

(** A schedule without transport errors. *)
Definition no_lost (es : list Relay.event) : bool :=
  forallb (fun ev => negb (Relay.is_Lost ev)) es.

(** The bytes the peer on side [s] sends in a schedule. *)
Fixpoint sent_by (s : side) (es : list Relay.event) : list byte :=
  match es with
  | [] => []
  | Relay.Recv Client data :: es' =>
      match s with
      | Client => data ++ sent_by s es'
      | Upstream => sent_by s es'
      end
  | Relay.Recv Upstream data :: es' =>
      match s with
      | Upstream => data ++ sent_by s es'
      | Client => sent_by s es'
      end
  | _ :: es' => sent_by s es'
  end.

(** Resumptions of one direction only. *)
Definition alone (d : Relay.dir) (n : nat) : list Relay.event :=
  repeat (Relay.Run d) n.

(** Enough resumptions for a direction to empty its source's buffer and
    leave: two per byte at most, and three to go through the [finally]. *)
Definition enough (d : Relay.dir) (st : Relay.state) : nat :=
  2 * length (Relay.rbuf (Relay.source d st)) + 3.

(** The effects the resolver can have: the two control-plane queries and a
    debug record. *)
Definition resolver_effect (x : effect) : bool :=
  match x with
  | Subprocess _ _ => true
  | Log DEBUG _ => true
  | _ => false
  end.

(** ** Vocabulary of the relay statements *)

Module RelaySpec.
Import Relay.

(** *** Invariants of the relay *)

(** The steps of [pipe], as a relation: one constructor per path through
    lines 64-78. *)
Inductive pipe_trans (r w : conn) : pc -> pc -> conn -> conn -> Prop :=
  | T_wait :
      rexc r = None -> rbuf r = [] -> reof r = false ->
      pipe_trans r w AtRead AtRead r w
  | T_read_error e :
      rexc r = Some e ->
      pipe_trans r w AtRead (on_error e) r w
  | T_eof :
      rexc r = None -> rbuf r = [] -> reof r = true ->
      pipe_trans r w AtRead (AtClose None) r w
  | T_data data rest :
      rexc r = None -> data <> [] -> rbuf r = data ++ rest ->
      (length rest < length (rbuf r))%nat ->
      pipe_trans r w AtRead AtDrain
        (mkConn rest (reof r) (rexc r) (closed r) (wire r) (fed r) (dropped r)
                (paused r))
        (write data w)
  | T_drained :
      drain w = Ready ->
      pipe_trans r w AtDrain AtRead r w
  | T_drain_error e :
      drain w = Raises e ->
      pipe_trans r w AtDrain (on_error e) r w
  | T_drain_wait :
      drain w = Wait ->
      pipe_trans r w AtDrain AtDrain r w
  | T_close pending :
      wait_closed (close w) = Ready ->
      pipe_trans r w (AtClose pending) (Finished pending) r (close w)
  | T_close_error pending e :
      wait_closed (close w) = Raises e ->
      pipe_trans r w (AtClose pending)
        (Finished (if is_Exception e then pending else Some e)) r (close w)
  | T_close_wait pending :
      wait_closed (close w) = Wait ->
      pipe_trans r w (AtClose pending) (AtClose pending) r (close w)
  | T_done x :
      pipe_trans r w (Finished x) (Finished x) r w.

(** Bytes are accounted for: what the source received is what the
    destination took, then what was discarded by a closed destination,
    then what still waits in the buffer; nothing is discarded while the
    destination is open; a finished pipe has closed its destination, which
    holds nothing back. *)
Definition pipe_inv (p : pc) (r w : conn) : Prop :=
  fed r = wire w ++ dropped w ++ rbuf r /\
  (closed w = false -> dropped w = []) /\
  (finished p = true -> closed w = true /\ paused w = false).

(** A connection that is closed and holds nothing back has its reader at
    the end of the stream or in error; a connection in error is closed
    and holds nothing back. *)
Definition conn_inv (c : conn) : Prop :=
  (closed c = true -> paused c = false ->
   reof c = true \/ rexc c <> None) /\
  (rexc c <> None -> closed c = true /\ paused c = false).

(** An exception raised by a pipe has reached [gather]. *)
Definition raised_noted (p : pc) (g : option exn) : Prop :=
  forall e, p = Finished (Some e) -> g <> None.

Definition inv (st : state) : Prop :=
  pipe_inv (c2b st) (client st) (upstream st) /\
  pipe_inv (b2c st) (upstream st) (client st) /\
  conn_inv (client st) /\ conn_inv (upstream st) /\
  raised_noted (c2b st) (gather_exc st) /\
  raised_noted (b2c st) (gather_exc st).

(** No exception is on its way out of the pipe. *)
Definition clean (p : pc) : bool :=
  match p with
  | AtClose (Some _) | Finished (Some _) => false
  | _ => true
  end.

Definition transport_exc (c : conn) : bool :=
  match rexc c with Some e => is_OSError e | None => true end.

(** What holds as long as connections are lost with transport errors
    only. *)
Definition tinv (st : state) : Prop :=
  clean (c2b st) = true /\ clean (b2c st) = true /\
  transport_exc (client st) = true /\ transport_exc (upstream st) = true /\
  gather_exc st = None.

(** The pipe has left its loop. *)
Definition leaving (p : pc) : bool :=
  match p with AtClose _ | Finished _ => true | _ => false end.

(** What holds of a pipe as long as no connection is lost: nothing is
    discarded, only the pipe itself closes its destination, on its way
    out, and it leaves its loop only at the end of its source. *)
Definition quiet_pipe (p : pc) (r w : conn) : Prop :=
  dropped w = [] /\
  (closed w = true -> leaving p = true) /\
  match p with
  | AtClose _ | Finished _ => rbuf r = [] /\ reof r = true
  | _ => True
  end.

Definition ninv (st : state) : Prop :=
  rexc (client st) = None /\ rexc (upstream st) = None /\
  quiet_pipe (c2b st) (client st) (upstream st) /\
  quiet_pipe (b2c st) (upstream st) (client st).

(** The connection on a side. *)
Definition conn_of (s : side) (st : state) : conn :=
  match s with Client => client st | Upstream => upstream st end.

(** The side a direction writes to. *)
Definition dest_side (d : dir) : side :=
  match d with C2B => Upstream | B2C => Client end.

(** The side a direction reads from. *)
Definition source_side (d : dir) : side :=
  match d with C2B => Client | B2C => Upstream end.

(** The connection takes no more bytes from its peer. *)
Definition ended (c : conn) : bool := closed c || reof c.

(** The resumptions a direction needs at most to hand on what its source
    has buffered. *)
Definition backlog (p : pc) (r : conn) : nat :=
  match p with
  | AtRead => 2 * length (rbuf r)
  | AtDrain => 2 * length (rbuf r) + 1
  | _ => 0
  end.

(** What a direction has left to do: two resumptions per buffered byte at
    most, and the way out. *)
Definition todo (p : pc) (r : conn) : nat :=
  match p with
  | AtRead => 2 * length (rbuf r) + 2
  | AtDrain => 2 * length (rbuf r) + 3
  | AtClose _ => 1
  | Finished _ => 0
  end.

(** The source of a pipe is at its end: end of stream or error. *)
Definition at_end (c : conn) : Prop := reof c = true \/ rexc c <> None.


(** What the peer and the network can do to a connection. *)
Inductive peer_op : (conn -> conn) -> Prop :=
  | P_data data : peer_op (feed_data data)
  | P_eof : peer_op feed_eof
  | P_lost e : peer_op (connection_lost e)
  | P_pause : peer_op pause_writing
  | P_resume : peer_op resume_writing.

End RelaySpec.

(** ** Concrete worlds and schedules *)

Definition a_peer : peername := Some ("203.0.113.7", 51234).

(** No container matches: [docker ps -q] prints nothing. *)
Definition world_without_container : env :=
  {| docker_ps := inr EmptyString;
     docker_inspect := fun _ => inl (CalledProcessError 1);
     json_loads := fun _ => inl JSONDecodeError;
     dial := fun _ _ => Some ConnectionRefusedError;
     bind_port := fun _ => None;
     interrupted := false |}.

(** The control plane does not answer in time. *)
Definition world_docker_timeout : env :=
  {| docker_ps := inl TimeoutExpired;
     docker_inspect := fun _ => inl TimeoutExpired;
     json_loads := fun _ => inl JSONDecodeError;
     dial := fun _ _ => Some ConnectionRefusedError;
     bind_port := fun _ => None;
     interrupted := false |}.

Definition first_id : string := "3f2a9c01d7e4".
Definition second_id : string := "77aa00bb11cc".

Definition bridge_ip : pyobj := PStr "172.17.0.2".

(** The descriptor of the first container: three networks, the first
    without an address. *)
Definition a_descriptor : pyobj :=
  PList
    [PDict
       [("Id", PStr first_id);
        ("NetworkSettings",
         PDict
           [("Networks",
             PDict
               [("none", PDict [("IPAddress", PStr EmptyString)]);
                ("bridge", PDict [("IPAddress", bridge_ip)]);
                ("mox", PDict [("IPAddress", PStr "10.89.0.5")])])])]].

(** Two containers match, the first one has the descriptor above, and
    the backend refuses connections. *)
Definition world_refusing : env :=
  {| docker_ps := inr (listing [first_id; second_id]);
     docker_inspect :=
       fun id => if String.eqb id first_id then inr "[{...}]"
                 else inl (CalledProcessError 1);
     json_loads := fun _ => inr a_descriptor;
     dial := fun _ _ => Some ConnectionRefusedError;
     bind_port := fun _ => None;
     interrupted := false |}.

Definition GET : list byte := [x47; x45; x54].

(** The client sends a request in two segments and closes its write
    side; the first segment is read in between. *)
Definition request_schedule : list Relay.event :=
  [Relay.Recv Client GET; Relay.Run Relay.C2B; Relay.Recv Client [x0a];
   Relay.RecvEof Client].

(** The client's connection is reset while a segment is on its way. *)
Definition reset_schedule : list Relay.event :=
  [Relay.Recv Client GET; Relay.Run Relay.C2B;
   Relay.Lost Client ConnectionResetError].

(** The client closes its write side at once; its direction ends. *)
Definition client_eof_schedule : list Relay.event :=
  [Relay.RecvEof Client; Relay.Run Relay.C2B; Relay.Run Relay.C2B].

(** Half close: after the client's end of stream the backend, which has
    neither closed nor failed, sends two bytes; the other direction is
    resumed twice. *)
Definition half_close_schedule : list Relay.event :=
  client_eof_schedule ++
  [Relay.Recv Upstream [x68; x69]; Relay.Run Relay.B2C; Relay.Run Relay.B2C].

(** The client sends its request and closes its write side; once the
    request is handed on, the backend answers with two bytes. *)
Definition lost_reply_schedule : list Relay.event :=
  request_schedule ++ alone Relay.C2B 5 ++
  [Relay.Recv Upstream [x68; x69]] ++ alone Relay.B2C 3.

(** The backend stops taking data while the request is on its way, and
    takes it later. *)
Definition slow_backend_schedule : list Relay.event :=
  [Relay.Recv Client GET; Relay.Pause Upstream; Relay.Run Relay.C2B;
   Relay.RecvEof Client].

(** ** Further vocabulary *)

Definition is_Close (x : effect) : bool :=
  match x with Close _ => true | _ => false end.

(** Lines 51-56: from the text of the descriptor to the address. *)
Definition descriptor_ip (data : pyobj) : M pyobj :=
  d0 <- getitem0 data ;;
  settings <- dict_get d0 "NetworkSettings" (PDict []) ;;
  networks <- dict_get settings "Networks" (PDict []) ;;
  nets <- dict_values networks ;;
  first_ip nets.

Definition is_dict (v : pyobj) : bool :=
  match v with PDict _ => true | _ => false end.

(** A descriptor as [docker inspect] prints it: a list that starts with a
    dict. *)
Definition descriptor_head (data : pyobj) : option (list (string * pyobj)) :=
  match data with
  | PList (PDict d0 :: _) => Some d0
  | _ => None
  end.

(** The debug record of line 58. *)
Definition debug_record (e : exn) : effect :=
  Log DEBUG [Lit "resolve_container_ip error: "; FExn e].

(** The records of lines 93 and 107. *)
Definition dial_record (peer : peername) (port : Z) (ip : pyobj) : effect :=
  Log INFO [Lit "[:"; FInt port; Lit "] "; FPeer peer; Lit " → ";
            FObj ip; Lit ":"; FInt port].

Definition closed_record (peer : peername) (port : Z) : effect :=
  Log INFO [Lit "[:"; FInt port; Lit "] "; FPeer peer; Lit " closed"].

(** The record of line 135. *)
Definition range_record (p : Z) : effect :=
  Log ERROR [Lit "Port "; FInt p;
             Lit " outside Fraktalia range 9000-9099, aborting"].

(** Lines 137-140: run [main], catch the interrupt. *)
Definition serve (w : env) (ports : list Z) : M unit :=
  catch (asyncio_run w (main w ports))
        (fun e =>
           match e with
           | KeyboardInterrupt => log INFO [Lit "Shutting down"]
           | _ => raise e
           end).

(** The world of [world_refusing] with other answers to the dial, to the
    binding of ports and to whether the user interrupts. *)
Definition world_with (d : option exn) (b : Z -> option exn) (i : bool)
  : env :=
  {| docker_ps := docker_ps world_refusing;
     docker_inspect := docker_inspect world_refusing;
     json_loads := json_loads world_refusing;
     dial := fun _ _ => d;
     bind_port := b;
     interrupted := i |}.

(** The same containers, with another descriptor for the first one. *)
Definition world_described (data : pyobj) : env :=
  {| docker_ps := docker_ps world_refusing;
     docker_inspect := docker_inspect world_refusing;
     json_loads := fun _ => inr data;
     dial := dial world_refusing;
     bind_port := bind_port world_refusing;
     interrupted := false |}.

(** Port 9001 is taken. *)
Definition port_9001_in_use (p : Z) : option exn :=
  if p =? 9001 then Some (OSError 98) else None.

(** The record of lines 124-127. *)
Definition startup_record (ip : pyobj) : effect :=
  if truthy ip then Log INFO [Lit "Mox container found at "; FObj ip]
  else Log WARNING
         [Lit "No Mox container running (will resolve per-connection)"].

(** The records of lines 122, 116 and 140. *)
Definition starting_record (ports : list Z) : effect :=
  Log INFO [Lit "Fraktalia Port Forwarder starting — ports: "; FInts ports].

Definition forwarding_record (port : Z) : effect :=
  Log INFO [Lit "Forwarding 0.0.0.0:"; FInt port; Lit " → mox-container:";
            FInt port].

Definition shutdown_record : effect := Log INFO [Lit "Shutting down"].

(** The record of line 140, recognised. *)
Definition is_Log_shutdown (x : effect) : bool :=
  match x with
  | Log INFO [Lit s] => String.eqb s "Shutting down"
  | _ => false
  end.

(** Whether the handler refuses the connection: no address, or a dial
    that fails with an error (lines 88 and 98). *)
Definition refuses (w : env) (port : Z) : bool :=
  match result (resolve_container_ip w) with
  | Ret ip =>
      if truthy ip then
        match dial w ip port with
        | Some e => is_Exception e
        | None => false
        end
      else true
  | _ => false
  end.

(** A descriptor without network settings, and one whose second network
    is not a dict. *)
Definition bare_descriptor : pyobj :=
  PList [PDict [("Id", PStr first_id); ("Name", PStr "/mox")]].

Definition odd_descriptor : pyobj :=
  PList
    [PDict
       [("NetworkSettings",
         PDict
           [("Networks",
             PDict
               [("none", PDict [("IPAddress", PStr EmptyString)]);
                ("host", PNone);
                ("mox", PDict [("IPAddress", PStr "10.89.0.5")])])])]].

Definition script_name : string := "mox-port-forward.py".

(** The client's connection is reset; each direction is then resumed
    three times. *)
Definition teardown_schedule : list Relay.event :=
  reset_schedule ++ alone Relay.C2B 3 ++ alone Relay.B2C 3.

(** The numeric levels of the [logging] module. *)
Definition level_rank (l : level) : Z :=
  match l with
  | DEBUG => 10
  | INFO => 20
  | WARNING => 30
  | ERROR => 40
  end.

(** Line 28: [logging.basicConfig(level=logging.INFO)]. *)
Definition LOG_LEVEL : level := INFO.

(** A record that reaches the output: its level is not below the
    configured one. *)
Definition written (x : effect) : bool :=
  match x with
  | Log l _ => level_rank LOG_LEVEL <=? level_rank l
  | _ => false
  end.

(** The record of line 89. *)
Definition refusal_record (peer : peername) (port : Z) : effect :=
  Log WARNING [Lit "[:"; FInt port; Lit "] "; FPeer peer;
               Lit " → no Mox container running, refusing"].

(** * Properties *)

(** ** Exceptions and the effect monad *)

Lemma OSError_is_Exception e : is_OSError e = true -> is_Exception e = true.
Proof. destruct e; simpl; congruence. Qed.

Lemma bind_trace_ret A B (m : M A) (f : A -> M B) a :
  result m = Ret a ->
  bind m f = (trace m ++ trace (f a), result (f a)).
Proof. unfold trace, result; cbn; unfold M_bind; intros ->; reflexivity. Qed.

Lemma bind_trace_raise A B (m : M A) (f : A -> M B) e :
  result m = Raise e -> bind m f = (trace m, Raise e).
Proof. unfold trace, result; cbn; unfold M_bind; intros ->; reflexivity. Qed.

(** ** Address resolver *)

Lemma first_ip_pure nets :
  trace (first_ip nets) = [] /\
  ((exists v, result (first_ip nets) = Ret v /\
              (v = PNone \/ truthy v = true)) \/
   result (first_ip nets) = Raise AttributeError).
Proof.
  induction nets as [|net rest IH]; cbn.
  - split; eauto.
  - destruct IH as [IHt IHr].
    destruct net; cbn; auto.
    destruct (truthy _) eqn:T; cbn; eauto 6.
Qed.

(** The outcome of the [try] body, case by case along lines 38-56. *)
Lemma resolve_body_cases w :
  (exists e, docker_ps w = inl e /\
             resolve_body w = ([Subprocess ps_argv 5], Raise e)) \/
  (exists out, docker_ps w = inr out /\ is_empty (strip out) = true /\
               resolve_body w = ([Subprocess ps_argv 5], Ret PNone)) \/
  (exists out id ls, docker_ps w = inr out /\ is_empty (strip out) = false /\
     splitlines (strip out) = id :: ls /\
     ((exists e, docker_inspect w id = inl e /\
         resolve_body w =
           ([Subprocess ps_argv 5; Subprocess (inspect_argv id) 5], Raise e)) \/
      (exists info, docker_inspect w id = inr info /\
         ((exists e, json_loads w info = inl e /\
             resolve_body w =
               ([Subprocess ps_argv 5; Subprocess (inspect_argv id) 5],
                Raise e)) \/
          (exists data, json_loads w info = inr data /\
             exists o, resolve_body w =
               ([Subprocess ps_argv 5; Subprocess (inspect_argv id) 5], o) /\
               ((exists v, o = Ret v /\ (v = PNone \/ truthy v = true)) \/
                (exists e, o = Raise e /\ is_Exception e = true))))))) \/
  (exists out, docker_ps w = inr out /\ is_empty (strip out) = false /\
     splitlines (strip out) = [] /\
     resolve_body w = ([Subprocess ps_argv 5], Raise IndexError)).
Proof.
  unfold resolve_body, check_output.
  destruct (docker_ps w) as [e|out] eqn:Hps; cbn.
  { left; eauto. }
  right.
  destruct (is_empty (strip out)) eqn:Hemp; cbn.
  { left; eauto. }
  right.
  destruct (splitlines (strip out)) as [|id ls] eqn:Hl; cbn.
  { right. exists out; auto. }
  left. exists out, id, ls. repeat split; auto.
  destruct (docker_inspect w id) as [e|info] eqn:Hi; cbn.
  { left; eauto. }
  right. exists info; split; auto.
  destruct (json_loads w info) as [e|data] eqn:Hj; cbn.
  { left; eauto. }
  right. exists data; split; auto.
  assert (Hraise : forall e, is_Exception e = true ->
            exists o, ([Subprocess ps_argv 5; Subprocess (inspect_argv id) 5],
                       @Raise pyobj e) =
                      ([Subprocess ps_argv 5; Subprocess (inspect_argv id) 5], o) /\
               ((exists v, o = Ret v /\ (v = PNone \/ truthy v = true)) \/
                (exists e0, o = Raise e0 /\ is_Exception e0 = true))).
  { intros e He. exists (Raise e). split; eauto. }
  destruct data as [| | | | s | l | items]; cbn;
    try (apply Hraise; reflexivity).
  - destruct s; cbn; apply Hraise; reflexivity.
  - destruct l as [|d0 l]; cbn; [apply Hraise; reflexivity|].
    destruct d0 as [| | | | | |d0]; cbn; try (apply Hraise; reflexivity).
    destruct (match assoc "NetworkSettings" d0 with
              | Some v => v
              | None => PDict []
              end)
      as [| | | | | |settings]; cbn; try (apply Hraise; reflexivity).
    destruct (match assoc "Networks" settings with
              | Some v => v
              | None => PDict []
              end)
      as [| | | | | |networks]; cbn; try (apply Hraise; reflexivity).
    destruct (first_ip_pure (map snd networks)) as [Ht Hr].
    unfold trace, result in *.
    destruct (first_ip (map snd networks)) as [t o]; cbn in *; subst t.
    exists o. split; auto.
    destruct Hr as [(v & -> & Hv)| ->]; eauto.
Qed.

Lemma resolve_body_trace w :
  Forall (fun x => is_Subprocess x = true) (trace (resolve_body w)).
Proof.
  destruct (resolve_body_cases w)
    as [(e & _ & E)|[(out & _ & _ & E)|[(out & id & ls & _ & _ & _ & H)|
        (out & _ & _ & _ & E)]]];
    try (rewrite E; cbn; repeat constructor).
  destruct H as [(e & _ & E)|(info & _ & [(e & _ & E)|(data & _ & o & E & _)])];
    rewrite E; cbn; repeat constructor.
Qed.

Lemma resolve_body_returns w :
  result (resolve_body w) <> Hang.
Proof.
  destruct (resolve_body_cases w)
    as [(e & _ & E)|[(out & _ & _ & E)|[(out & id & ls & _ & _ & _ & H)|
        (out & _ & _ & _ & E)]]];
    try (rewrite E; cbn; discriminate).
  destruct H as [(e & _ & E)|(info & _ & [(e & _ & E)|(data & _ & o & E & H)])];
    try (rewrite E; cbn; discriminate).
  rewrite E.
  destruct H as [(v & -> & _)|(e & -> & _)]; cbn; discriminate.
Qed.

(** What [except Exception] makes of the body's outcome. *)
Lemma resolve_by_body w :
  match result (resolve_body w) with
  | Ret v => resolve_container_ip w = (trace (resolve_body w), Ret v)
  | Raise e =>
      if is_Exception e then
        resolve_container_ip w =
          (trace (resolve_body w) ++
             [Log DEBUG [Lit "resolve_container_ip error: "; FExn e]],
           Ret PNone)
      else resolve_container_ip w = (trace (resolve_body w), Raise e)
  | Hang => False
  end.
Proof.
  pose proof (resolve_body_returns w) as Hh.
  unfold resolve_container_ip, result, trace in *.
  revert Hh. generalize (resolve_body w). intros [t [v|e|]] Hh;
    cbn in *; try congruence.
  unfold M_catch; cbn.
  destruct (is_Exception e); cbn; rewrite ?app_nil_r; reflexivity.
Qed.

Lemma resolve_trace w :
  Forall (fun x => resolver_effect x = true) (trace (resolve_container_ip w)).
Proof.
  pose proof (resolve_by_body w) as H.
  pose proof (resolve_body_trace w) as Ht.
  assert (Hsub : Forall (fun x => resolver_effect x = true)
                        (trace (resolve_body w))).
  { eapply Forall_impl; [|exact Ht]. intros [] Hx; cbn in *; congruence. }
  destruct (result (resolve_body w)) as [v|e|]; [rewrite H; exact Hsub| |tauto].
  destruct (is_Exception e); rewrite H; cbn; auto.
  apply Forall_app; split; auto.
Qed.

Lemma resolve_no_listen w :
  filter is_Listen (trace (resolve_container_ip w)) = [].
Proof.
  pose proof (resolve_trace w) as H.
  induction H as [|x l Hx _ IH]; cbn; auto.
  rewrite IH. destruct x as [[] ?| | | |]; cbn in *; congruence.
Qed.

Lemma resolve_body_value w v :
  result (resolve_body w) = Ret v -> v <> PNone ->
  truthy v = true /\
  exists out id ls info data,
    docker_ps w = inr out /\ splitlines (strip out) = id :: ls /\
    docker_inspect w id = inr info /\ json_loads w info = inr data.
Proof.
  intros Hr Hv.
  destruct (resolve_body_cases w)
    as [(e & _ & E)|[(out & _ & _ & E)|[(out & id & ls & Hps & _ & Hl & H)|
        (out & _ & _ & _ & E)]]];
    try (rewrite E in Hr; cbn in Hr; congruence).
  destruct H as [(e & _ & E)|(info & Hi & [(e & _ & E)|(data & Hj & o & E & H)])];
    try (rewrite E in Hr; cbn in Hr; congruence).
  rewrite E in Hr; cbn in Hr; subst o.
  destruct H as [(v' & [= <-] & [->|T])|(e & [=] & _)]; [congruence|].
  split; auto. exists out, id, ls, info, data; auto.
Qed.

(** C3, as amended.  The resolver never raises an error: whatever the
    control plane answers, the call returns, unless an exception outside
    [Exception] (an interrupt) passes through it.  It returns [None] when
    no instance matches, and when anything inside the [try] raises an
    error, which then is logged at debug level.  It returns an address
    only if both queries gave data.  It logs nothing above debug level,
    and it logs only when an error was caught: the absence of an instance
    or of an address is not logged by the resolver. *)
Theorem resolver_absent_on_failure (w : env) :
  (forall e, result (resolve_container_ip w) = Raise e ->
             is_Exception e = false) /\
  result (resolve_container_ip w) <> Hang /\
  (forall out, docker_ps w = inr out -> is_empty (strip out) = true ->
     resolve_container_ip w = ([Subprocess ps_argv 5], Ret PNone)) /\
  (forall e, result (resolve_body w) = Raise e -> is_Exception e = true ->
     resolve_container_ip w =
       (trace (resolve_body w) ++
          [Log DEBUG [Lit "resolve_container_ip error: "; FExn e]],
        Ret PNone)) /\
  (forall v, result (resolve_container_ip w) = Ret v -> v <> PNone ->
     truthy v = true /\
     exists out id ls info data,
       docker_ps w = inr out /\ splitlines (strip out) = id :: ls /\
       docker_inspect w id = inr info /\ json_loads w info = inr data) /\
  (forall lvl msg, In (Log lvl msg) (trace (resolve_container_ip w)) ->
     lvl = DEBUG /\
     exists e, result (resolve_body w) = Raise e /\ is_Exception e = true).
Proof.
  pose proof (resolve_by_body w) as H.
  pose proof (resolve_body_trace w) as Ht.
  assert (Hnolog : forall lvl msg, ~ In (Log lvl msg) (trace (resolve_body w))).
  { intros lvl msg Hin. rewrite Forall_forall in Ht.
    specialize (Ht _ Hin). discriminate. }
  refine (conj _ (conj _ (conj _ (conj _ (conj _ _))))).
  - intros e He.
    destruct (result (resolve_body w)) as [v|e'|];
      [rewrite H in He; discriminate| |tauto].
    destruct (is_Exception e') eqn:E; rewrite H in He; cbn in He; congruence.
  - destruct (result (resolve_body w)) as [v|e'|];
      [rewrite H; discriminate| |tauto].
    destruct (is_Exception e'); rewrite H; discriminate.
  - intros out Hps Hemp.
    destruct (resolve_body_cases w)
      as [(e & Hps' & _)|[(out' & _ & _ & E)|
          [(out' & id & ls & Hps' & Hemp' & _)|(out' & Hps' & Hemp' & _)]]];
      try congruence.
    rewrite E in H. cbn in H. exact H.
  - intros e Hr He. rewrite Hr, He in H. exact H.
  - intros v Hv Hn.
    destruct (result (resolve_body w)) as [v'|e'|] eqn:Hr; [| |tauto].
    + rewrite H in Hv. cbn in Hv. injection Hv as <-.
      apply (resolve_body_value w v' Hr Hn).
    + destruct (is_Exception e'); rewrite H in Hv; cbn in Hv; congruence.
  - intros lvl msg Hin.
    destruct (result (resolve_body w)) as [v'|e'|] eqn:Hr; [| |tauto].
    + rewrite H in Hin. cbn in Hin. destruct (Hnolog _ _ Hin).
    + destruct (is_Exception e') eqn:He; rewrite H in Hin; cbn in Hin.
      * apply in_app_or in Hin. destruct Hin as [Hin|[Hin|[]]];
          [destruct (Hnolog _ _ Hin)|].
        injection Hin as <- _. eauto.
      * destruct (Hnolog _ _ Hin).
Qed.

(** ** Connection handler *)

Lemma resolve_connects_nothing w :
  filter is_Connect (trace (resolve_container_ip w)) = [].
Proof.
  pose proof (resolve_trace w) as H.
  induction H as [|x l Hx _ IH]; cbn; auto.
  rewrite IH. destruct x as [[] ?| | | |]; cbn in *; congruence.
Qed.

Lemma filter_nil_existsb A (f : A -> bool) l :
  filter f l = [] -> existsb f l = false.
Proof.
  induction l as [|x l IH]; cbn; auto.
  destruct (f x); cbn; [discriminate|auto].
Qed.

(** C4.  When the resolution yields [None], the handler performs, after
    the resolver's own queries, exactly two effects: a warning that names
    the listening port and the peer, and the close of the inbound stream.
    It returns, and it never dials. *)
Theorem handler_refuses_without_backend
    (w : env) (sched : list Relay.event) (peer : peername) (port : Z) :
  result (resolve_container_ip w) = Ret PNone ->
  handle_connection w sched peer port =
    (trace (resolve_container_ip w) ++
       [Log WARNING [Lit "[:"; FInt port; Lit "] "; FPeer peer;
                     Lit " → no Mox container running, refusing"];
        Close Client],
     Ret tt) /\
  existsb is_Connect (trace (handle_connection w sched peer port)) = false.
Proof.
  intros Hr.
  assert (E : handle_connection w sched peer port =
    (trace (resolve_container_ip w) ++
       [Log WARNING [Lit "[:"; FInt port; Lit "] "; FPeer peer;
                     Lit " → no Mox container running, refusing"];
        Close Client],
     Ret tt)).
  { unfold handle_connection. rewrite (bind_trace_ret _ _ _ _ _ Hr).
    reflexivity. }
  split; [exact E|].
  rewrite E. unfold trace at 1. cbn [fst].
  rewrite existsb_app, (filter_nil_existsb _ _ _ (resolve_connects_nothing w)).
  reflexivity.
Qed.

(** C5.  When the resolution yields an address, the handler dials once:
    that address, the port of the listener, a timeout of 5 seconds.  If
    the dial ends with an error, a timeout like a refusal like any other
    [Exception], the handler logs a warning with the address, the port and
    the error, closes the inbound stream and returns. *)
Theorem handler_dials_same_port
    (w : env) (sched : list Relay.event) (peer : peername) (port : Z)
    (ip : pyobj) :
  result (resolve_container_ip w) = Ret ip ->
  truthy ip = true ->
  filter is_Connect (trace (handle_connection w sched peer port)) =
    [Connect ip port 5] /\
  (forall e, dial w ip port = Some e -> is_Exception e = true ->
     handle_connection w sched peer port =
       (trace (resolve_container_ip w) ++
          [Log INFO [Lit "[:"; FInt port; Lit "] "; FPeer peer; Lit " → ";
                     FObj ip; Lit ":"; FInt port];
           Connect ip port 5;
           Log WARNING [Lit "[:"; FInt port; Lit "] "; FPeer peer;
                        Lit " → connect to "; FObj ip; Lit ":"; FInt port;
                        Lit " failed: "; FExn e];
           Close Client],
        Ret tt)).
Proof.
  intros Hr Ht.
  unfold handle_connection. rewrite (bind_trace_ret _ _ _ _ _ Hr), Ht.
  cbn [negb]. unfold open_connection, gather_pipes.
  split.
  - unfold trace at 1. cbn [fst]. rewrite filter_app, resolve_connects_nothing.
    cbn. unfold M_bind, M_catch; cbn.
    destruct (dial w ip port) as [e|]; cbn.
    + destruct (is_Exception e); reflexivity.
    + destruct (Relay.gather_result _); reflexivity.
  - intros e He Hex. rewrite He. cbn. unfold M_bind, M_catch; cbn.
    rewrite Hex. reflexivity.
Qed.

(** ** Listeners and process entry *)

Lemma listeners_listen w ports :
  filter is_Listen (trace (listeners w ports)) = map (Listen "0.0.0.0") ports.
Proof.
  unfold listeners, trace.
  induction ports as [|p ports IH]; cbn; auto.
  unfold M_bind; cbn. f_equal.
  destruct (bind_port w p); cbn; exact IH.
Qed.

Lemma listeners_only_bind w w' ports :
  (forall p, bind_port w' p = bind_port w p) ->
  listeners w' ports = listeners w ports.
Proof.
  intros Hb. unfold listeners.
  induction ports as [|p ports IH]; cbn; auto.
  rewrite IH. unfold start_forwarder. rewrite Hb. reflexivity.
Qed.

(** C10.  Whatever the startup resolution returns, [main] goes on: after
    its first record and the resolver's queries it logs one record about
    the outcome, and then starts the listeners, one per configured port,
    in order.  The listeners do not depend on what the resolution found:
    they are the same in any world that binds ports alike. *)
Theorem startup_resolution_is_informational
    (w : env) (ports : list Z) (ip : pyobj) :
  result (resolve_container_ip w) = Ret ip ->
  (exists lvl msg,
     main w ports =
       (Log INFO [Lit "Fraktalia Port Forwarder starting — ports: ";
                  FInts ports]
          :: trace (resolve_container_ip w)
          ++ Log lvl msg :: trace (listeners w ports),
        result (listeners w ports))) /\
  filter is_Listen (trace (main w ports)) = map (Listen "0.0.0.0") ports /\
  (forall w', (forall p, bind_port w' p = bind_port w p) ->
              listeners w' ports = listeners w ports).
Proof.
  intros Hr.
  assert (E : exists lvl msg,
     main w ports =
       (Log INFO [Lit "Fraktalia Port Forwarder starting — ports: ";
                  FInts ports]
          :: trace (resolve_container_ip w)
          ++ Log lvl msg :: trace (listeners w ports),
        result (listeners w ports))).
  { unfold main. fold (listeners w ports).
    unfold log at 1, emit. cbn [bind Monad_M]. unfold M_bind at 1.
    cbn [fst snd app].
    rewrite (bind_trace_ret _ _ _ _ _ Hr). cbn [fst snd].
    destruct (truthy ip); eexists; eexists; unfold trace, result;
      cbn; unfold M_bind; cbn; reflexivity. }
  split; [exact E|split].
  - destruct E as (lvl & msg & ->). unfold trace at 1.
    cbn [fst filter is_Listen].
    rewrite filter_app, resolve_no_listen. cbn. apply listeners_listen.
  - intros w'. apply listeners_only_bind.
Qed.

(** [int] refuses a number of more than 4300 digits. *)
Lemma parse_digits_limit s :
  forall acc prev count,
    MAX_STR_DIGITS < count -> parse_digits s acc prev count = None.
Proof.
  induction s as [|c r IH]; intros acc prev count H; cbn.
  - replace (count <=? MAX_STR_DIGITS) with false
      by (symmetry; apply Z.leb_gt; exact H).
    rewrite andb_false_r. reflexivity.
  - destruct (is_digit c); [apply IH; lia|].
    destruct (Ascii.eqb c "_"); [|reflexivity].
    destruct prev; [apply IH; exact H|reflexivity].
Qed.

(** [int] skips blanks and the no-break space around the number, not the
    separators FS to US; it takes a sign and single underscores. *)
Lemma py_int_blanks :
  py_int " +9_000
" = Some 9000 /\
  py_int (String (ascii_of_nat 160) "9000") = Some 9000 /\
  py_int (String (ascii_of_nat 28) "9000") = None /\
  py_int "9000_" = None /\
  py_int "" = None.
Proof. repeat split; reflexivity. Qed.

Lemma parse_ports_cases args :
  (parse_ports args = ([], Raise ValueError) /\
   exists a, In a args /\ py_int a = None) \/
  (exists ports, parse_ports args = ([], Ret ports) /\
                 forall a p, In a args -> py_int a = Some p -> In p ports).
Proof.
  induction args as [|a args IH]; cbn.
  - right. exists []. split; [reflexivity|intros ? ? []].
  - destruct (py_int a) as [n|] eqn:Ha; cbn; unfold M_bind; cbn.
    + destruct IH as [(E & b & Hb & Hn)|(ports & E & Hp)]; rewrite E; cbn.
      * left. eauto.
      * right. exists (n :: ports). split; auto.
        intros b p [<-|Hb] Hbp; [left; congruence|right; eauto].
    + left. eauto.
Qed.

Lemma parse_ports_invalid args a :
  In a args -> py_int a = None -> parse_ports args = ([], Raise ValueError).
Proof.
  induction args as [|b args IH]; cbn; [tauto|].
  intros [->|Hin] Ha.
  - rewrite Ha. reflexivity.
  - destruct (py_int b); cbn; unfold M_bind; cbn; auto.
    rewrite (IH Hin Ha). reflexivity.
Qed.

Lemma check_ports_out ports p :
  In p ports -> in_range p = false ->
  exists q, In q ports /\ in_range q = false /\
    check_ports ports =
      ([Log ERROR [Lit "Port "; FInt q;
                   Lit " outside Fraktalia range 9000-9099, aborting"]],
       Raise (SystemExit 1)).
Proof.
  induction ports as [|x ports IH]; cbn; [tauto|].
  intros Hin Hp.
  destruct (in_range x) eqn:Hx; cbn.
  - destruct Hin as [->|Hin]; [congruence|].
    destruct (IH Hin Hp) as (q & Hq & Hr & E). eauto.
  - exists x. auto.
Qed.

Lemma tl_in_length A (a : A) l :
  In a (tl l) -> (1 <? Z.of_nat (length l)) = true.
Proof.
  destruct l as [|x [|y l]]; cbn [tl In length]; try tauto.
  intros _. apply Z.ltb_lt. lia.
Qed.

(** C7.  If some argument is a port outside 9000-9099, the process ends
    with exit status 1, and all it has done is log: nothing was bound, no
    command was run, no connection was dialled. *)
Theorem out_of_range_port_exits
    (w : env) (argv : list string) (a : string) (p : Z) :
  In a (tl argv) -> py_int a = Some p -> in_range p = false ->
  exit_status (result (script w argv)) = Some 1 /\
  filter (fun x => negb (is_Log x)) (trace (script w argv)) = [].
Proof.
  intros Hin Ha Hp.
  unfold script. rewrite (tl_in_length _ _ _ Hin).
  destruct (parse_ports_cases (tl argv)) as [(E & _)|(ports & E & Hports)].
  - rewrite (bind_trace_raise _ _ _ _ ValueError) by (rewrite E; reflexivity).
    rewrite E. split; reflexivity.
  - rewrite (bind_trace_ret _ _ _ _ ports) by (rewrite E; reflexivity).
    destruct (check_ports_out ports p (Hports _ _ Hin Ha) Hp)
      as (q & _ & _ & Eq).
    rewrite (bind_trace_raise _ _ _ _ (SystemExit 1))
      by (rewrite Eq; reflexivity).
    rewrite E, Eq. split; reflexivity.
Qed.

(** C9.  If some argument is not accepted by [int], the list
    comprehension of line 132 raises [ValueError], which nothing catches:
    the process ends with exit status 1 having done nothing at all, so the
    range check of lines 133-136 has not run and nothing was bound. *)
Theorem non_integer_argument_exits
    (w : env) (argv : list string) (a : string) :
  In a (tl argv) -> py_int a = None ->
  script w argv = ([], Raise ValueError) /\
  exit_status (result (script w argv)) = Some 1.
Proof.
  intros Hin Ha.
  assert (E : script w argv = ([], Raise ValueError)).
  { unfold script. rewrite (tl_in_length _ _ _ Hin).
    rewrite (bind_trace_raise _ _ _ _ ValueError)
      by (rewrite (parse_ports_invalid _ _ Hin Ha); reflexivity).
    rewrite (parse_ports_invalid _ _ Hin Ha). reflexivity. }
  rewrite E. split; reflexivity.
Qed.

(** ** Which instance, which address *)

Lemma linebreak_is_space c : is_linebreak c = true -> is_space c = true.
Proof.
  unfold is_linebreak, is_space. cbv zeta.
  generalize (N_of_ascii c). intros n H.
  apply orb_true_iff in H. destruct H as [H|H];
    [apply orb_true_iff in H; destruct H as [H|H]|].
  - apply andb_true_iff in H. destruct H as [H1 H2].
    apply N.leb_le in H1, H2.
    replace (9 <=? n)%N with true by (symmetry; apply N.leb_le; lia).
    replace (n <=? 13)%N with true by (symmetry; apply N.leb_le; lia).
    reflexivity.
  - apply andb_true_iff in H. destruct H as [H1 H2].
    apply N.leb_le in H1, H2.
    replace (28 <=? n)%N with true by (symmetry; apply N.leb_le; lia).
    replace (n <=? 32)%N with true by (symmetry; apply N.leb_le; lia).
    cbn. rewrite orb_true_r. reflexivity.
  - rewrite H. cbn. rewrite orb_true_r. reflexivity.
Qed.

Lemma rstrip_cons a s :
  is_space a = false -> rstrip (String a s) = String a (rstrip s).
Proof. intros H. cbn. rewrite H. destruct (rstrip s); reflexivity. Qed.

Lemma rstrip_app c x :
  string_forall (fun a => negb (is_space a)) c = true ->
  rstrip (String.append c x) = String.append c (rstrip x).
Proof.
  induction c as [|a c IH]; cbn [string_forall String.append]; auto.
  intros H. apply andb_true_iff in H. destruct H as [Ha Hc].
  apply negb_true_iff in Ha.
  rewrite (rstrip_cons _ _ Ha), (IH Hc). reflexivity.
Qed.

Lemma rstrip_keeps_head a s :
  rstrip (String a s) = EmptyString \/
  exists t, rstrip (String a s) = String a t.
Proof.
  cbn. destruct (rstrip s); [destruct (is_space a)|]; eauto.
Qed.

Lemma lstrip_id c x :
  is_container_id c = true ->
  lstrip (String.append c x) = String.append c x.
Proof.
  unfold is_container_id. destruct c as [|a c]; cbn; [discriminate|].
  intros H. apply andb_true_iff in H. destruct H as [Ha _].
  apply negb_true_iff in Ha. rewrite Ha. reflexivity.
Qed.

Lemma splitlines_first_line c x :
  string_forall (fun a => negb (is_space a)) c = true ->
  c <> EmptyString ->
  x = EmptyString \/ (exists t, x = String LF t) ->
  exists ls, splitlines (String.append c x) = c :: ls.
Proof.
  induction c as [|a c IH]; [congruence|].
  cbn [string_forall]. intros H _ Hx.
  apply andb_true_iff in H. destruct H as [Ha Hc].
  assert (Hlb : is_linebreak a = false).
  { destruct (is_linebreak a) eqn:E; auto.
    apply linebreak_is_space in E. rewrite E in Ha. discriminate. }
  cbn [String.append splitlines]. rewrite Hlb.
  destruct c as [|b c].
  - cbn [String.append].
    destruct Hx as [->|(t & ->)]; cbn; eauto.
  - destruct (IH Hc) as (ls & ->); [discriminate|exact Hx|]. eauto.
Qed.

(** The container the resolver inspects is the first of the listing. *)
Lemma first_listed c rest :
  is_container_id c = true ->
  is_empty (strip (listing (c :: rest))) = false /\
  exists ls, splitlines (strip (listing (c :: rest))) = c :: ls.
Proof.
  intros Hid. pose proof Hid as Hid'.
  unfold is_container_id in Hid'. apply andb_true_iff in Hid'.
  destruct Hid' as [Hne Hns]. apply negb_true_iff in Hne.
  unfold strip. cbn [listing].
  rewrite (lstrip_id _ _ Hid), (rstrip_app _ _ Hns).
  split.
  - destruct c; [discriminate|reflexivity].
  - apply splitlines_first_line; auto.
    + destruct c; [discriminate|congruence].
    + destruct (rstrip_keeps_head LF (listing rest)) as [->|(t & ->)]; eauto.
Qed.

Lemma first_ip_first_found (pre : list (string * pyobj)) name net post ip :
  forallb no_address (map snd pre) = true ->
  assoc "IPAddress" net = Some ip -> truthy ip = true ->
  first_ip (map snd (pre ++ (name, PDict net) :: post)) = ([], Ret ip).
Proof.
  intros Hpre Hip Ht.
  induction pre as [|[n v] pre IH].
  - cbn. rewrite Hip, Ht. reflexivity.
  - cbn in Hpre. apply andb_true_iff in Hpre.
    destruct Hpre as [Hv Hpre].
    destruct v as [| | | | | |items]; try discriminate.
    cbn in Hv. apply negb_true_iff in Hv.
    cbn. rewrite Hv, (IH Hpre). reflexivity.
Qed.

(** C8.  When the listing names one or more instances, the resolver
    inspects the first one; and when the descriptor of that instance lists
    its networks, each one a dict, the resolver returns the address of the
    first network, in the order of the descriptor, whose ["IPAddress"] is
    not empty, without looking at the networks after it. *)
Theorem resolver_first_found
    (w : env) (c : string) (rest : list string) (info : string)
    (d0 : list (string * pyobj)) (others : list pyobj)
    (settings networks pre post net : list (string * pyobj))
    (name : string) (ip : pyobj) :
  is_container_id c = true ->
  docker_ps w = inr (listing (c :: rest)) ->
  docker_inspect w c = inr info ->
  json_loads w info = inr (PList (PDict d0 :: others)) ->
  assoc "NetworkSettings" d0 = Some (PDict settings) ->
  assoc "Networks" settings = Some (PDict networks) ->
  networks = pre ++ (name, PDict net) :: post ->
  forallb no_address (map snd pre) = true ->
  assoc "IPAddress" net = Some ip ->
  truthy ip = true ->
  resolve_container_ip w =
    ([Subprocess ps_argv 5; Subprocess (inspect_argv c) 5], Ret ip).
Proof.
  intros Hid Hps Hi Hj Hs Hn -> Hpre Hip Ht.
  destruct (first_listed c rest Hid) as (Hne & ls & Hl).
  remember (listing (c :: rest)) as out eqn:Hout. clear Hout.
  assert (E : resolve_body w =
    ([Subprocess ps_argv 5; Subprocess (inspect_argv c) 5], Ret ip)).
  { unfold resolve_body, check_output. rewrite Hps. cbn.
    unfold M_bind at 1. cbn [fst snd]. rewrite Hne, Hl. cbn.
    rewrite Hi. cbn. rewrite Hj. cbn. rewrite Hs. cbn. rewrite Hn. cbn.
    rewrite (first_ip_first_found pre name net post ip Hpre Hip Ht).
    reflexivity. }
  pose proof (resolve_by_body w) as H. rewrite E in H. cbn in H. exact H.
Qed.

(** ** Stream relay *)

Module RelayFacts.
Import Relay RelaySpec.


(** *** The stream operations *)

Lemma read_cases n c :
  (exists e, rexc c = Some e /\ read n c = (ReadRaise e, c)) \/
  (rexc c = None /\ rbuf c = [] /\ reof c = false /\
   read n c = (Blocked, c)) \/
  (rexc c = None /\ rbuf c = [] /\ reof c = true /\
   read n c = (Data [], c)) \/
  (rexc c = None /\ rbuf c <> [] /\
   read n c =
     (Data (firstn (Z.to_nat n) (rbuf c)),
      mkConn (skipn (Z.to_nat n) (rbuf c)) (reof c) (rexc c) (closed c)
             (wire c) (fed c) (dropped c) (paused c))).
Proof.
  unfold read. destruct c as [rb eo ex cl wi fe dr pa]; cbn [rexc rbuf reof].
  destruct ex as [e|]; [left; eauto|right].
  destruct rb as [|b rb]; [destruct eo; [right; left|left]; auto|].
  right; right. split; [reflexivity|]. split; [discriminate|reflexivity].
Qed.

Lemma firstn_nonempty (k : nat) (l : list byte) :
  (0 < k)%nat -> l <> [] -> firstn k l <> [].
Proof. destruct k, l; cbn; intros; try lia; congruence. Qed.

Lemma skipn_shorter (k : nat) (l : list byte) :
  (0 < k)%nat -> l <> [] -> (length (skipn k l) < length l)%nat.
Proof.
  intros Hk Hl. rewrite length_skipn.
  destruct l; [congruence|cbn [length]; lia].
Qed.

Lemma buf_size_pos : (0 < Z.to_nat BUF_SIZE)%nat.
Proof. unfold BUF_SIZE. lia. Qed.

(** From here on the size of the buffer is only known to be positive. *)
Opaque BUF_SIZE.

(** *** One step of [pipe] *)

(** What a step of [pipe] leaves alone: on the connection it reads,
    everything but the buffer; on the connection it writes, whatever
    the reader of that connection has received. *)
Lemma pipe_step_frame p r w p' r' w' :
  pipe_step p r w = (p', r', w') ->
  (reof r' = reof r /\ rexc r' = rexc r /\ closed r' = closed r /\
   wire r' = wire r /\ fed r' = fed r /\ dropped r' = dropped r /\
   paused r' = paused r) /\
  (rbuf w' = rbuf w /\ rexc w' = rexc w /\ fed w' = fed w /\
   paused w' = paused w /\
   (closed w = true ->
    closed w' = true /\ reof w' = reof w /\ wire w' = wire w) /\
   (reof w = true -> reof w' = true)).
Proof.
  destruct p as [| |pending|x]; unfold pipe_step.
  - destruct (read_cases BUF_SIZE r)
      as [(e & _ & ->)|[(_ & _ & _ & ->)|[(_ & _ & _ & ->)|(_ & Hne & ->)]]];
      try (intros [= <- <- <-]; repeat split; auto).
    pose proof (firstn_nonempty _ _ buf_size_pos Hne) as Hd.
    destruct (firstn (Z.to_nat BUF_SIZE) (rbuf r)) as [|b d]; [congruence|].
    intros [= <- <- <-]. unfold write. cbn.
    destruct (closed w) eqn:Hc; cbn; repeat split; auto; discriminate.
  - destruct (drain w); intros [= <- <- <-]; repeat split; auto.
  - unfold wait_closed, close.
    destruct (closed w) eqn:Hc; cbn;
      destruct (rexc w) as [e|] eqn:Hx; try destruct (is_Exception e);
      destruct (paused w) eqn:Hp; cbn;
      intros [= <- <- <-]; cbn; rewrite ?Hp; repeat split; auto;
      intros; congruence.
  - intros [= <- <- <-]; repeat split; auto.
Qed.

Lemma pipe_step_trans p r w :
  pipe_trans r w p (fst (fst (pipe_step p r w)))
             (snd (fst (pipe_step p r w))) (snd (pipe_step p r w)).
Proof.
  destruct p as [| |pending|x]; unfold pipe_step.
  - destruct (read_cases BUF_SIZE r)
      as [(e & He & ->)|[(Hx & Hb & Ho & ->)|[(Hx & Hb & Ho & ->)|(Hx & Hne & ->)]]];
      cbn [fst snd]; try (constructor; assumption).
    pose proof (firstn_nonempty _ _ buf_size_pos Hne) as Hd.
    pose proof (skipn_shorter _ _ buf_size_pos Hne) as Hs.
    pose proof (firstn_skipn (Z.to_nat BUF_SIZE) (rbuf r)) as Hfs.
    destruct (firstn (Z.to_nat BUF_SIZE) (rbuf r)) as [|b d]; [congruence|].
    cbn [fst snd]. apply T_data; auto.
  - destruct (drain w) as [|e|] eqn:Hd; cbn [fst snd]; constructor; auto.
  - cbv zeta. destruct (wait_closed (close w)) as [|e|] eqn:Hw;
      cbn [fst snd]; [apply T_close|idtac|apply T_close_wait]; auto.
    pose proof (T_close_error r w pending e Hw) as T.
    destruct (is_Exception e); exact T.
  - cbn. constructor.
Qed.

Ltac conn_crush :=
  unfold write, close, drain, wait_closed, on_error, feed_data, feed_eof,
    connection_lost, pause_writing, resume_writing in *;
  repeat match goal with
         | |- context [if paused ?c then _ else _] =>
             let E := fresh "Hpa" in destruct (paused c) eqn:E
         | H : context [if paused ?c then _ else _] |- _ =>
             let E := fresh "Hpa" in destruct (paused c) eqn:E
         | |- context [if closed ?c && negb (paused ?c) then _ else _] =>
             let E := fresh "Hcl" in
             let E' := fresh "Hpa" in
             destruct (closed c) eqn:E; destruct (paused c) eqn:E';
             cbn [andb negb]
         | |- context [if closed ?c || reof ?c then _ else _] =>
             let E := fresh "Hcl" in
             let E' := fresh "Heo" in
             destruct (closed c) eqn:E; destruct (reof c) eqn:E';
             cbn [orb]
         | |- context [if closed ?c then _ else _] =>
             let E := fresh "Hcl" in destruct (closed c) eqn:E
         | H : context [if closed ?c then _ else _] |- _ =>
             let E := fresh "Hcl" in destruct (closed c) eqn:E
         | |- context [if reof ?c then _ else _] =>
             let E := fresh "Heo" in destruct (reof c) eqn:E
         | |- context [if is_OSError ?e then _ else _] =>
             let E := fresh "Hos" in destruct (is_OSError e) eqn:E
         | |- context [match rexc ?c with _ => _ end] =>
             let E := fresh "Hex" in destruct (rexc c) eqn:E
         | H : context [match rexc ?c with _ => _ end] |- _ =>
             let E := fresh "Hex" in destruct (rexc c) eqn:E
         end;
  cbn in *.

Ltac finish :=
  repeat split; intros; try tauto; try congruence; try discriminate;
  try solve [intuition (try congruence; try discriminate)].

Lemma pipe_trans_inv r w p p' r' w' :
  pipe_trans r w p p' r' w' -> conn_inv w -> pipe_inv p r w ->
  pipe_inv p' r' w'.
Proof.
  intros T (_ & Hx) (Hd & Hk & Hf).
  destruct T; unfold pipe_inv; conn_crush; finish.
  all: try (rewrite Hd, H1, ?(Hk eq_refl); cbn; rewrite <- ?app_assoc;
            reflexivity).

Qed.

(** The pipe of the other direction reads [w] and writes [r]. *)
Lemma pipe_trans_inv_other r w p p' r' w' q :
  pipe_trans r w p p' r' w' -> pipe_inv q w r -> pipe_inv q w' r'.
Proof.
  intros T (Hd & Hk & Hf).
  destruct T; unfold pipe_inv; conn_crush; finish.
Qed.

Lemma pipe_trans_conn r w p p' r' w' :
  pipe_trans r w p p' r' w' ->
  (conn_inv r -> conn_inv r') /\ (conn_inv w -> conn_inv w').
Proof.
  intros T.
  destruct T; unfold conn_inv; conn_crush; finish; cbn in *; auto.
Qed.

Lemma pipe_trans_noted r w p p' r' w' g :
  pipe_trans r w p p' r' w' -> raised_noted p g ->
  raised_noted p' (note_exc g p').
Proof.
  intros T H e ->. unfold note_exc. destruct g; [discriminate|].
  discriminate.
Qed.

Lemma note_exc_keeps g p q :
  raised_noted q g -> raised_noted q (note_exc g p).
Proof.
  intros H e Hq. specialize (H e Hq). unfold note_exc.
  destruct g; congruence.
Qed.

Lemma pipe_trans_clean r w p p' r' w' :
  pipe_trans r w p p' r' w' ->
  transport_exc r = true -> transport_exc w = true -> clean p = true ->
  clean p' = true /\ transport_exc r' = true /\ transport_exc w' = true.
Proof.
  intros T Hr Hw Hp. unfold transport_exc in *.
  destruct T; conn_crush; subst;
    repeat match goal with
           | H : Some _ = Some _ |- _ => injection H as H; subst
           | H : Raises _ = Raises _ |- _ => injection H as H; subst
           end;
    finish; cbn in *; try congruence.
  all: try (destruct pending; [discriminate|]).
  all: try match goal with
           | H : is_OSError ?e = true |- context [is_Exception ?e] =>
               rewrite (OSError_is_Exception e H)
           end; auto.

Qed.

Lemma pipe_trans_quiet r w p p' r' w' :
  pipe_trans r w p p' r' w' ->
  rexc r = None -> rexc w = None -> quiet_pipe p r w ->
  quiet_pipe p' r' w' /\ rexc r' = None /\ rexc w' = None.
Proof.
  intros T Hr Hw (Hd & Hc & Hp).
  destruct T; unfold quiet_pipe; conn_crush; finish.
  all: try (specialize (Hc eq_refl); discriminate).
Qed.

Lemma pipe_trans_quiet_other r w p p' r' w' q :
  pipe_trans r w p p' r' w' ->
  rexc r = None -> rexc w = None -> quiet_pipe p r w ->
  quiet_pipe q w r -> quiet_pipe q w' r'.
Proof.
  intros T Hr Hw (Hd & Hc & Hp) (Hd' & Hc' & Hq).
  destruct T; unfold quiet_pipe; conn_crush; finish.
  all: try (specialize (Hc eq_refl); discriminate).
  all: destruct q; tauto.
Qed.

(** *** What the peers do *)

Lemma peer_op_inv f :
  peer_op f ->
  (forall p c w, pipe_inv p c w -> pipe_inv p (f c) w) /\
  (forall p r c, pipe_inv p r c -> pipe_inv p r (f c)) /\
  (forall c, conn_inv c -> conn_inv (f c)).
Proof.
  intros [data| |e| |]; (split; [|split]).
  all: try (intros p c w (Hd & Hk & Hf)); try (intros c (Hc & Hx));
    unfold pipe_inv, conn_inv; conn_crush; finish; cbn in *; auto.
  all: try (rewrite Hd, !app_assoc; reflexivity).

Qed.

Lemma feed_rexc data c :
  rexc (feed_data data c) = rexc c /\ rexc (feed_eof c) = rexc c.
Proof. conn_crush; auto. Qed.

Lemma flow_rexc c :
  rexc (pause_writing c) = rexc c /\ rexc (resume_writing c) = rexc c.
Proof. conn_crush; auto. Qed.

Lemma lost_clean e c :
  is_OSError e = true -> transport_exc c = true ->
  transport_exc (connection_lost e c) = true.
Proof. intros He. unfold transport_exc. conn_crush; finish. Qed.

Lemma feed_quiet f :
  (exists data, f = feed_data data) \/ f = feed_eof \/
  f = pause_writing \/ f = resume_writing ->
  (forall c, rexc c = None -> rexc (f c) = None) /\
  (forall p c w, quiet_pipe p c w -> quiet_pipe p (f c) w) /\
  (forall p r c, quiet_pipe p r c -> quiet_pipe p r (f c)).
Proof.
  intros [(data & ->)|[->|[->| ->]]]; (split; [|split]).
  all: try (intros p c w (Hd & Hk & Hf)); try (intros c Hc);
    unfold quiet_pipe; conn_crush; finish; cbn in *; auto.
  all: try (destruct p; cbn in *; try tauto; destruct Hf; congruence).
Qed.

Lemma step_peer_inv st s f :
  peer_op f -> inv st -> inv (on_conn s f st).
Proof.
  intros Hf (H1 & H2 & H3 & H4 & H5 & H6).
  destruct (peer_op_inv f Hf) as (Hs & Hd & Hc).
  destruct s; unfold inv, on_conn; cbn;
    refine (conj _ (conj _ (conj _ (conj _ (conj _ _))))); auto.
Qed.

Lemma step_inv st ev : inv st -> inv (step st ev).
Proof.
  intros H. destruct ev as [s data|s|s e|s|s|d]; cbn [step];
    try (apply step_peer_inv; [constructor|exact H]).
  destruct H as (H1 & H2 & H3 & H4 & H5 & H6).
  destruct d.
  - pose proof (pipe_step_trans (c2b st) (client st) (upstream st)) as T.
    destruct (pipe_step (c2b st) (client st) (upstream st)) as [[p' r'] w'].
    cbn [fst snd] in T. destruct (pipe_trans_conn _ _ _ _ _ _ T) as [Cr Cw].
    unfold inv; cbn.
    refine (conj _ (conj _ (conj _ (conj _ (conj _ _))))).
    + apply (pipe_trans_inv _ _ _ _ _ _ T H4 H1).
    + apply (pipe_trans_inv_other _ _ _ _ _ _ _ T H2).
    + apply Cr, H3.
    + apply Cw, H4.
    + apply (pipe_trans_noted _ _ _ _ _ _ _ T H5).
    + apply note_exc_keeps, H6.
  - pose proof (pipe_step_trans (b2c st) (upstream st) (client st)) as T.
    destruct (pipe_step (b2c st) (upstream st) (client st)) as [[p' r'] w'].
    cbn [fst snd] in T. destruct (pipe_trans_conn _ _ _ _ _ _ T) as [Cr Cw].
    unfold inv; cbn.
    refine (conj _ (conj _ (conj _ (conj _ (conj _ _))))).
    + apply (pipe_trans_inv_other _ _ _ _ _ _ _ T H1).
    + apply (pipe_trans_inv _ _ _ _ _ _ T H3 H2).
    + apply Cw, H3.
    + apply Cr, H4.
    + apply note_exc_keeps, H5.
    + apply (pipe_trans_noted _ _ _ _ _ _ _ T H6).
Qed.

Lemma run_app es es' st : run (es ++ es') st = run es' (run es st).
Proof. unfold run. apply fold_left_app. Qed.

Lemma run_inv es st : inv st -> inv (run es st).
Proof.
  revert st. induction es as [|ev es IH]; intros st H; [exact H|].
  cbn. apply IH, step_inv, H.
Qed.

Lemma established_inv : inv established.
Proof.
  unfold inv, pipe_inv, conn_inv, raised_noted; cbn.
  repeat split; intros; try discriminate; congruence.
Qed.

(** *** Transport errors only *)

Lemma step_tinv st ev :
  transport_errors_only [ev] = true -> tinv st -> tinv (step st ev).
Proof.
  intros Hev (H1 & H2 & H3 & H4 & H5).
  destruct ev as [s data|s|s e|s|s|d]; cbn [step].
  - destruct s; unfold tinv, on_conn, transport_exc in *; cbn;
      rewrite (proj1 (feed_rexc data _)); auto.
  - destruct s; unfold tinv, on_conn, transport_exc in *; cbn;
      rewrite (proj2 (feed_rexc [] _)); auto.
  - cbn in Hev. rewrite andb_true_r in Hev.
    destruct s; unfold tinv, on_conn; cbn;
      refine (conj _ (conj _ (conj _ (conj _ _)))); auto using lost_clean.
  - destruct s; unfold tinv, on_conn, transport_exc in *; cbn;
      rewrite (proj1 (flow_rexc _)); auto.
  - destruct s; unfold tinv, on_conn, transport_exc in *; cbn;
      rewrite (proj2 (flow_rexc _)); auto.
  - destruct d.
    + pose proof (pipe_step_trans (c2b st) (client st) (upstream st)) as T.
      destruct (pipe_step (c2b st) (client st) (upstream st)) as [[p' r'] w'].
      cbn [fst snd] in T.
      destruct (pipe_trans_clean _ _ _ _ _ _ T H3 H4 H1) as (C1 & C2 & C3).
      unfold tinv; cbn. rewrite H5.
      refine (conj _ (conj _ (conj _ (conj _ _)))); auto.
      destruct p' as [| |[]|[]]; cbn in *; congruence.
    + pose proof (pipe_step_trans (b2c st) (upstream st) (client st)) as T.
      destruct (pipe_step (b2c st) (upstream st) (client st)) as [[p' r'] w'].
      cbn [fst snd] in T.
      destruct (pipe_trans_clean _ _ _ _ _ _ T H4 H3 H2) as (C1 & C2 & C3).
      unfold tinv; cbn. rewrite H5.
      refine (conj _ (conj _ (conj _ (conj _ _)))); auto.
      destruct p' as [| |[]|[]]; cbn in *; congruence.
Qed.

Lemma run_tinv es st :
  transport_errors_only es = true -> tinv st -> tinv (run es st).
Proof.
  revert st. induction es as [|ev es IH]; intros st Hes H; [exact H|].
  cbn in Hes. apply andb_true_iff in Hes. destruct Hes as [Hev Hes].
  cbn. apply IH; auto. apply step_tinv; auto.
  cbn. rewrite Hev. reflexivity.
Qed.

Lemma established_tinv : tinv established.
Proof. unfold tinv; cbn; auto. Qed.

(** *** No lost connection *)

Lemma no_lost_transport es :
  no_lost es = true -> transport_errors_only es = true.
Proof.
  unfold no_lost, transport_errors_only.
  induction es as [|ev es IH]; cbn; auto.
  intros H. apply andb_true_iff in H. destruct H as [Hev H].
  rewrite (IH H). destruct ev; cbn in *; auto; discriminate.
Qed.

Lemma step_ninv st ev :
  is_Lost ev = false -> ninv st -> ninv (step st ev).
Proof.
  intros Hev (H1 & H2 & H3 & H4).
  destruct ev as [s data|s|s e|s|s|d]; cbn [step]; [| |discriminate| | |].
  - destruct (feed_quiet (feed_data data)) as (Fx & Fs & Fd); [eauto|].
    destruct s; unfold ninv, on_conn; cbn;
      refine (conj _ (conj _ (conj _ _))); auto.
  - destruct (feed_quiet feed_eof) as (Fx & Fs & Fd); [eauto|].
    destruct s; unfold ninv, on_conn; cbn;
      refine (conj _ (conj _ (conj _ _))); auto.
  - destruct (feed_quiet pause_writing) as (Fx & Fs & Fd); [auto|].
    destruct s; unfold ninv, on_conn; cbn;
      refine (conj _ (conj _ (conj _ _))); auto.
  - destruct (feed_quiet resume_writing) as (Fx & Fs & Fd); [auto|].
    destruct s; unfold ninv, on_conn; cbn;
      refine (conj _ (conj _ (conj _ _))); auto.
  - destruct d.
    + pose proof (pipe_step_trans (c2b st) (client st) (upstream st)) as T.
      destruct (pipe_step (c2b st) (client st) (upstream st)) as [[p' r'] w'].
      cbn [fst snd] in T.
      destruct (pipe_trans_quiet _ _ _ _ _ _ T H1 H2 H3) as (Q & Xr & Xw).
      unfold ninv; cbn. refine (conj _ (conj _ (conj _ _))); auto.
      apply (pipe_trans_quiet_other _ _ _ _ _ _ _ T H1 H2 H3 H4).
    + pose proof (pipe_step_trans (b2c st) (upstream st) (client st)) as T.
      destruct (pipe_step (b2c st) (upstream st) (client st)) as [[p' r'] w'].
      cbn [fst snd] in T.
      destruct (pipe_trans_quiet _ _ _ _ _ _ T H2 H1 H4) as (Q & Xr & Xw).
      unfold ninv; cbn. refine (conj _ (conj _ (conj _ _))); auto.
      apply (pipe_trans_quiet_other _ _ _ _ _ _ _ T H2 H1 H4 H3).
Qed.

Lemma run_ninv es st : no_lost es = true -> ninv st -> ninv (run es st).
Proof.
  revert st. induction es as [|ev es IH]; intros st Hes H; [exact H|].
  cbn in Hes. apply andb_true_iff in Hes. destruct Hes as [Hev Hes].
  cbn. apply IH; auto. apply step_ninv; auto.
  apply negb_true_iff, Hev.
Qed.

Lemma established_ninv : ninv established.
Proof. unfold ninv, quiet_pipe; cbn. repeat split; auto; discriminate. Qed.

(** *** Resuming one direction *)

Lemma step_run d st :
  pipe_trans (source d st) (dest d st) (task d st)
             (task d (step st (Run d)))
             (source d (step st (Run d))) (dest d (step st (Run d))) /\
  task (other d) (step st (Run d)) = task (other d) st.
Proof.
  destruct d; cbn.
  - pose proof (pipe_step_trans (c2b st) (client st) (upstream st)) as T.
    destruct (pipe_step (c2b st) (client st) (upstream st)) as [[p' r'] w'].
    cbn in *. auto.
  - pose proof (pipe_step_trans (b2c st) (upstream st) (client st)) as T.
    destruct (pipe_step (b2c st) (upstream st) (client st)) as [[p' r'] w'].
    cbn in *. auto.
Qed.

Lemma pipe_trans_fed r w p p' r' w' :
  pipe_trans r w p p' r' w' -> fed r' = fed r /\ fed w' = fed w.
Proof. intros T. destruct T; conn_crush; auto. Qed.

Lemma pipe_trans_paused r w p p' r' w' :
  pipe_trans r w p p' r' w' ->
  paused r' = paused r /\ paused w' = paused w.
Proof. intros T. destruct T; conn_crush; auto; congruence. Qed.

Lemma pipe_trans_todo r w p p' r' w' :
  pipe_trans r w p p' r' w' -> at_end r -> paused w = false ->
  at_end r' /\ paused w' = false /\
  (finished p = true -> finished p' = true) /\
  (finished p = false -> (todo p' r' < todo p r)%nat).
Proof.
  intros T He Hp. unfold at_end in *.
  destruct T; conn_crush; cbn in *; try congruence;
    (split; [auto|split; [auto|split; [auto; try discriminate|
       intros F; try discriminate F; try lia]]]).
  destruct He; congruence.
Qed.

Lemma run_alone_S d n st :
  run (alone d (S n)) st = run (alone d n) (step st (Run d)).
Proof. reflexivity. Qed.

Lemma alone_finishes d n :
  forall st, at_end (source d st) -> paused (dest d st) = false ->
    (todo (task d st) (source d st) <= n)%nat ->
    finished (task d (run (alone d n) st)) = true.
Proof.
  induction n as [|n IH]; intros st He Hp Hn.
  - cbn. destruct (task d st); cbn in *; auto; lia.
  - rewrite run_alone_S.
    destruct (step_run d st) as [T _].
    destruct (pipe_trans_todo _ _ _ _ _ _ T He Hp) as (He' & Hp' & Hf & Hlt).
    apply IH; auto.
    destruct (finished (task d st)) eqn:F.
    + specialize (Hf eq_refl).
      destruct (task d (step st (Run d))); cbn in *; try discriminate; lia.
    + specialize (Hlt eq_refl). lia.
Qed.

Lemma todo_enough d st : (todo (task d st) (source d st) <= enough d st)%nat.
Proof. unfold enough. destruct (task d st); cbn; lia. Qed.

Lemma alone_frame d n :
  forall st,
    task (other d) (run (alone d n) st) = task (other d) st /\
    fed (source d (run (alone d n) st)) = fed (source d st) /\
    fed (dest d (run (alone d n) st)) = fed (dest d st).
Proof.
  induction n as [|n IH]; intros st; [cbn; auto|].
  rewrite !run_alone_S.
  destruct (step_run d st) as [T Ho].
  destruct (pipe_trans_fed _ _ _ _ _ _ T) as [F1 F2].
  destruct (IH (step st (Run d))) as (I1 & I2 & I3).
  rewrite I1, I2, I3. auto.
Qed.

Lemma alone_paused d n :
  forall st,
    paused (source d (run (alone d n) st)) = paused (source d st) /\
    paused (dest d (run (alone d n) st)) = paused (dest d st).
Proof.
  induction n as [|n IH]; intros st; [cbn; auto|].
  rewrite !run_alone_S.
  destruct (step_run d st) as [T _].
  destruct (pipe_trans_paused _ _ _ _ _ _ T) as [F1 F2].
  destruct (IH (step st (Run d))) as (I1 & I2).
  rewrite I1, I2. auto.
Qed.

(** *** After a transport error *)




(** *** A closed connection receives nothing more *)

Lemma step_closed_frozen st ev s :
  closed (conn_of s st) = true ->
  closed (conn_of s (step st ev)) = true /\
  fed (conn_of s (step st ev)) = fed (conn_of s st).
Proof.
  intros Hc.
  destruct ev as [s' data|s'|s' e|s'|s'|d]; cbn [step].
  - destruct s, s'; unfold on_conn, feed_data; cbn in *; rewrite ?Hc; auto.
  - destruct s, s'; unfold on_conn, feed_eof; cbn in *; rewrite ?Hc; auto.
  - destruct s, s'; unfold on_conn, connection_lost; cbn in *;
      rewrite ?Hc; cbn; auto;
      match goal with
      | |- context [paused ?c] => destruct (paused c); cbn; auto
      end.
  - destruct s, s'; unfold on_conn, pause_writing; cbn in *;
      rewrite ?Hc; auto.
  - destruct s, s'; unfold on_conn, resume_writing; cbn in *; auto;
      match goal with
      | |- context [paused ?c] => destruct (paused c); cbn; auto
      end.
  - destruct d.
    + destruct (pipe_step (c2b st) (client st) (upstream st))
        as [[p' r'] w'] eqn:E.
      destruct (pipe_step_frame _ _ _ _ _ _ E)
        as ((_ & _ & R3 & _ & R5 & _) & (_ & _ & W3 & _ & W4 & _)).
      destruct s; cbn in *; [rewrite R3, R5; auto|].
      destruct (W4 Hc) as (W & _). auto.
    + destruct (pipe_step (b2c st) (upstream st) (client st))
        as [[p' r'] w'] eqn:E.
      destruct (pipe_step_frame _ _ _ _ _ _ E)
        as ((_ & _ & R3 & _ & R5 & _) & (_ & _ & W3 & _ & W4 & _)).
      destruct s; cbn in *; [|rewrite R3, R5; auto].
      destruct (W4 Hc) as (W & _). auto.
Qed.

Lemma run_closed_frozen es :
  forall st s, closed (conn_of s st) = true ->
    closed (conn_of s (run es st)) = true /\
    fed (conn_of s (run es st)) = fed (conn_of s st).
Proof.
  induction es as [|ev es IH]; intros st s Hc; [cbn; auto|].
  cbn [run fold_left]. fold (run es (step st ev)).
  destruct (step_closed_frozen st ev s Hc) as [Hc' Hf].
  destruct (IH _ s Hc') as [Hc2 Hf2]. rewrite Hf2, Hf. auto.
Qed.

Lemma dest_conn_of d st : dest d st = conn_of (dest_side d) st.
Proof. destruct d; reflexivity. Qed.

Lemma alone_lossless d n : no_lost (alone d n) = true.
Proof. induction n; cbn; auto. Qed.

Lemma no_lost_app es es' :
  no_lost es = true -> no_lost es' = true -> no_lost (es ++ es') = true.
Proof.
  unfold no_lost. intros. rewrite forallb_app. apply andb_true_iff; auto.
Qed.

Lemma transport_errors_app es es' :
  transport_errors_only es = true -> transport_errors_only es' = true ->
  transport_errors_only (es ++ es') = true.
Proof.
  unfold transport_errors_only. intros. rewrite forallb_app.
  apply andb_true_iff; auto.
Qed.

Lemma clean_finished p :
  clean p = true -> finished p = true -> p = Finished None.
Proof. destruct p as [| |[]|[]]; cbn; congruence. Qed.

Lemma inv_dir st d :
  inv st ->
  pipe_inv (task d st) (source d st) (dest d st) /\
  conn_inv (dest d st) /\ raised_noted (task d st) (gather_exc st).
Proof. intros (H1 & H2 & H3 & H4 & H5 & H6). destruct d; cbn; auto. Qed.

Lemma tinv_dir st d : tinv st -> clean (task d st) = true.
Proof. intros (H1 & H2 & _). destruct d; cbn; auto. Qed.

Lemma ninv_dir st d :
  ninv st -> quiet_pipe (task d st) (source d st) (dest d st).
Proof. intros (H1 & H2 & H3 & H4). destruct d; cbn; auto. Qed.

(** *** What the peers send and what enters the relay *)

Lemma sent_by_app s es es' :
  sent_by s (es ++ es') = sent_by s es ++ sent_by s es'.
Proof.
  induction es as [|ev es IH]; [reflexivity|].
  destruct ev as [[] data|?|? ?|?|?|?], s; cbn; rewrite ?IH, ?app_assoc;
    reflexivity.
Qed.

Lemma sent_by_alone s d n : sent_by s (alone d n) = [].
Proof. induction n; cbn; auto. Qed.

Lemma feed_data_fed data c :
  (ended c = true -> feed_data data c = c) /\
  (ended c = false -> fed (feed_data data c) = fed c ++ data).
Proof.
  unfold ended, feed_data. destruct (closed c || reof c); split; intros H;
    try discriminate; reflexivity.
Qed.

Lemma flow_op_fed f :
  peer_op f -> (forall data, f <> feed_data data) ->
  forall c, fed (f c) = fed c /\ (ended c = true -> ended (f c) = true).
Proof.
  intros [data| |e| |] Hf c; [destruct (Hf data eq_refl)| | | |];
    destruct c as [rb eo ex cl wi fe dr pa];
    unfold ended, feed_eof, connection_lost, pause_writing, resume_writing;
    cbn; destruct cl, eo, pa; cbn; auto.
Qed.

Lemma step_fed st ev s :
  (ended (conn_of s st) = true ->
   ended (conn_of s (step st ev)) = true /\
   fed (conn_of s (step st ev)) = fed (conn_of s st)) /\
  (ended (conn_of s st) = false ->
   fed (conn_of s (step st ev)) = fed (conn_of s st) ++ sent_by s [ev]).
Proof.
  assert (Hflow : forall f, peer_op f -> (forall data, f <> feed_data data) ->
            forall s',
              (ended (conn_of s st) = true ->
               ended (conn_of s (on_conn s' f st)) = true /\
               fed (conn_of s (on_conn s' f st)) = fed (conn_of s st)) /\
              (ended (conn_of s st) = false ->
               fed (conn_of s (on_conn s' f st)) = fed (conn_of s st) ++ [])).
  { intros f Hf Hn s'. rewrite app_nil_r.
    destruct (flow_op_fed f Hf Hn (client st)) as [C1 C2].
    destruct (flow_op_fed f Hf Hn (upstream st)) as [U1 U2].
    destruct s, s'; unfold on_conn; cbn [conn_of client upstream];
      split; intros H; auto. }
  destruct ev as [s' data|s'|s' e|s'|s'|d]; cbn [step].
  - destruct s, s'; unfold on_conn; cbn [conn_of client upstream sent_by];
      rewrite ?app_nil_r; try solve [split; intros H; auto].
    + destruct (feed_data_fed data (client st)) as [F1 F2].
      split; intros H; [rewrite (F1 H); auto|apply F2, H].
    + destruct (feed_data_fed data (upstream st)) as [F1 F2].
      split; intros H; [rewrite (F1 H); auto|apply F2, H].
  - destruct s; apply Hflow; try constructor; intros data H;
      apply (f_equal (fun f => reof (f fresh))) in H; discriminate H.
  - destruct s; apply Hflow; try constructor; intros data H;
      apply (f_equal (fun f => closed (f fresh))) in H; discriminate H.
  - destruct s; apply Hflow; try constructor; intros data H;
      apply (f_equal (fun f => paused (f fresh))) in H; discriminate H.
  - destruct s; apply Hflow; try constructor; intros data H;
      apply (f_equal
               (fun f => paused (f (mkConn [] false None false [] [] [] true))))
        in H; discriminate H.
  - cbn [sent_by]. rewrite app_nil_r. unfold ended. clear Hflow.
    destruct d.
    + destruct (pipe_step (c2b st) (client st) (upstream st))
        as [[p' r'] w'] eqn:E.
      destruct (pipe_step_frame _ _ _ _ _ _ E)
        as ((R1 & _ & R3 & _ & R5 & _) & (_ & _ & W3 & _ & W4 & W5)).
      destruct s; cbn [conn_of client upstream].
      * rewrite R1, R3, R5. split; auto.
      * rewrite W3. split; [|auto]. intros H. split; [|reflexivity].
        destruct (closed (upstream st)) eqn:Hc.
        -- destruct (W4 eq_refl) as (-> & _). reflexivity.
        -- cbn in H. rewrite (W5 H). apply orb_true_r.
    + destruct (pipe_step (b2c st) (upstream st) (client st))
        as [[p' r'] w'] eqn:E.
      destruct (pipe_step_frame _ _ _ _ _ _ E)
        as ((R1 & _ & R3 & _ & R5 & _) & (_ & _ & W3 & _ & W4 & W5)).
      destruct s; cbn [conn_of client upstream].
      * rewrite W3. split; [|auto]. intros H. split; [|reflexivity].
        destruct (closed (client st)) eqn:Hc.
        -- destruct (W4 eq_refl) as (-> & _). reflexivity.
        -- cbn in H. rewrite (W5 H). apply orb_true_r.
      * rewrite R1, R3, R5. split; auto.
Qed.

Lemma run_ended_frozen es :
  forall st s, ended (conn_of s st) = true ->
    ended (conn_of s (run es st)) = true /\
    fed (conn_of s (run es st)) = fed (conn_of s st).
Proof.
  induction es as [|ev es IH]; intros st s H; [cbn; auto|].
  cbn [run fold_left]. fold (run es (step st ev)).
  destruct (proj1 (step_fed st ev s) H) as [H' F].
  destruct (IH _ s H') as [H2 F2]. rewrite F2, F. auto.
Qed.

(** What entered the reader on a side is the beginning of what its peer
    sent, and all of it if the connection still takes bytes. *)
Lemma run_fed es s :
  forall st, exists acc rest,
    fed (conn_of s (run es st)) = fed (conn_of s st) ++ acc /\
    sent_by s es = acc ++ rest /\
    (ended (conn_of s (run es st)) = false -> rest = []).
Proof.
  induction es as [|ev es IH]; intros st.
  - exists [], []. cbn. rewrite app_nil_r. auto.
  - cbn [run fold_left]. fold (run es (step st ev)).
    change (ev :: es) with ([ev] ++ es). rewrite sent_by_app.
    destruct (ended (conn_of s st)) eqn:H.
    + destruct (run_ended_frozen (ev :: es) st s H) as [H' F].
      exists [], (sent_by s [ev] ++ sent_by s es).
      cbn [run fold_left] in H', F. fold (run es (step st ev)) in H', F.
      rewrite F, app_nil_r. refine (conj eq_refl (conj eq_refl _)).
      intros C. congruence.
    + destruct (IH (step st ev)) as (acc & rest & F & S & R).
      exists (sent_by s [ev] ++ acc), rest.
      rewrite F, (proj2 (step_fed st ev s) H), S, !app_assoc. auto.
Qed.

(** *** Handing on what is buffered *)

Lemma pipe_trans_backlog r w p p' r' w' :
  pipe_trans r w p p' r' w' -> paused w = false ->
  (backlog p' r' <= pred (backlog p r))%nat.
Proof.
  intros T Hp.
  destruct T; conn_crush; cbn in *; try lia; try congruence.
  all: rewrite ?H0; cbn; lia.
Qed.

Lemma alone_drains d n :
  forall st, paused (dest d st) = false ->
    (backlog (task d st) (source d st) <= n)%nat ->
    backlog (task d (run (alone d n) st)) (source d (run (alone d n) st)) =
      0%nat.
Proof.
  induction n as [|n IH]; intros st Hp Hn; [cbn; lia|].
  rewrite run_alone_S.
  destruct (step_run d st) as [T _].
  pose proof (pipe_trans_backlog _ _ _ _ _ _ T Hp) as Hb.
  destruct (pipe_trans_paused _ _ _ _ _ _ T) as [_ Hp'].
  apply IH; [congruence|lia].
Qed.

Lemma backlog_enough d st :
  (backlog (task d st) (source d st) <= enough d st)%nat.
Proof. unfold enough. destruct (task d st); cbn; lia. Qed.

(** With nothing left to hand on and no connection lost, the buffer of
    the source is empty. *)
Lemma drained_empty p r w :
  quiet_pipe p r w -> backlog p r = 0%nat -> rbuf r = [].
Proof.
  intros (_ & _ & Hq) Hb.
  destruct p; cbn in *; try tauto; try lia.
  destruct (rbuf r); [reflexivity|cbn in Hb; lia].
Qed.

Lemma source_conn_of d st : source d st = conn_of (source_side d) st.
Proof. destruct d; reflexivity. Qed.

Transparent BUF_SIZE.
End RelayFacts.

Import Relay RelaySpec RelayFacts.

(** C1, as amended.  In every state an established relay can reach, and
    for each direction: the bytes its source stream has received are, in
    this order, the bytes its destination took, the bytes a closed
    destination discarded, and the bytes still in the buffer; nothing is
    discarded while the destination is open.  What the source stream has
    received is the beginning of what its peer sent, and all of it as
    long as the forwarder has not closed that connection and the peer has
    not ended its stream.  When no connection is lost, nothing is
    discarded at all; a direction that has finished has delivered every
    byte its source received; as long as the destination takes data, the
    resumptions of the direction alone hand on everything that is
    buffered, whether or not the source has ended; and once the source is
    at its end of stream the direction finishes, with every byte
    delivered. *)
Theorem relay_copies_bytes (es : list event) (d : dir) :
  let st := run es established in
  fed (source d st) =
    wire (dest d st) ++ dropped (dest d st) ++ rbuf (source d st) /\
  (closed (dest d st) = false -> dropped (dest d st) = []) /\
  (exists rest, sent_by (source_side d) es = fed (source d st) ++ rest) /\
  (closed (source d st) = false -> reof (source d st) = false ->
   fed (source d st) = sent_by (source_side d) es) /\
  (no_lost es = true ->
     dropped (dest d st) = [] /\
     (finished (task d st) = true ->
      wire (dest d st) = fed (source d st) /\ paused (dest d st) = false) /\
     (paused (dest d st) = false ->
      forall n, (enough d st <= n)%nat ->
        let st' := run (es ++ alone d n) established in
        rbuf (source d st') = [] /\
        wire (dest d st') = fed (source d st)) /\
     (reof (source d st) = true -> paused (dest d st) = false ->
      forall n, (enough d st <= n)%nat ->
        let st' := run (es ++ alone d n) established in
        task d st' = Finished None /\
        wire (dest d st') = fed (source d st))).
Proof.
  intros st.
  destruct (inv_dir st d (run_inv es _ established_inv))
    as ((Hd & Hk & Hf) & _).
  destruct (run_fed es (source_side d) established)
    as (acc & rest & Hfed & Hsent & Hrest).
  fold st in Hfed, Hrest. rewrite <- source_conn_of in Hfed, Hrest.
  assert (Hacc : fed (source d st) = acc) by (rewrite Hfed; destruct d; auto).
  refine (conj Hd (conj Hk (conj _ (conj _ _)))).
  { exists rest. rewrite Hacc. exact Hsent. }
  { intros Hc Ho. rewrite Hsent, Hrest, app_nil_r; [exact Hacc|].
    unfold ended. rewrite Hc, Ho. reflexivity. }
  intros Hq.
  assert (Hdel : forall es', no_lost es' = true ->
            let s := run es' established in
            dropped (dest d s) = [] /\
            (rbuf (source d s) = [] -> wire (dest d s) = fed (source d s)) /\
            (finished (task d s) = true -> rbuf (source d s) = [])).
  { intros es' Hq' s.
    destruct (inv_dir s d (run_inv es' _ established_inv)) as ((Hd' & _) & _).
    destruct (ninv_dir s d (run_ninv es' _ Hq' established_ninv))
      as (Hz & _ & Hp).
    refine (conj Hz (conj _ _)).
    - intros Hb. rewrite Hd', Hz, Hb, app_nil_r. reflexivity.
    - intros F. destruct (task d s); try discriminate; tauto. }
  destruct (Hdel es Hq) as (Hz & Hw & Hb).
  assert (Hq' : forall n, no_lost (es ++ alone d n) = true)
    by (intros n; apply no_lost_app; [exact Hq|apply alone_lossless]).
  refine (conj Hz (conj _ (conj _ _))).
  - intros F. split; [apply Hw, Hb, F|apply Hf, F].
  - intros Hp n Hn st'.
    assert (Est : st' = run (alone d n) st) by apply run_app.
    destruct (Hdel _ (Hq' n)) as (_ & Hw' & _). fold st' in Hw'.
    assert (E : rbuf (source d st') = []).
    { apply (drained_empty (task d st') _ (dest d st')).
      - apply ninv_dir. apply run_ninv; [apply Hq'|apply established_ninv].
      - rewrite Est. apply alone_drains; [exact Hp|].
        pose proof (backlog_enough d st). lia. }
    split; [exact E|]. rewrite (Hw' E), Est. apply (alone_frame d n st).
  - intros Heof Hp n Hn st'.
    assert (Est : st' = run (alone d n) st) by apply run_app.
    assert (F : finished (task d st') = true).
    { rewrite Est. apply alone_finishes; [left; exact Heof|exact Hp|].
      pose proof (todo_enough d st). lia. }
    split.
    + apply clean_finished; [|exact F].
      apply tinv_dir, run_tinv;
        [apply no_lost_transport, Hq'|apply established_tinv].
    + destruct (Hdel _ (Hq' n)) as (_ & Hw' & Hb'). fold st' in Hw', Hb'.
      rewrite (Hw' (Hb' F)), Est. apply (alone_frame d n st).
Qed.


(** C2, as amended.  [gather] returns only when both pipes have finished.
    A direction whose source is at its end, by end of stream or by a
    transport error, finishes by its own resumptions alone as long as
    its destination holds nothing back, and these leave the other
    direction where it was; while the peer of its destination takes no
    data it does not finish.  A direction that has finished has closed
    its destination connection, which is the connection the other
    direction reads: whatever happens next, that connection receives no
    further byte from its peer; its reader is at its end, and the other
    direction finishes by its own resumptions alone as soon as its own
    destination holds nothing back, whether or not its peer has
    closed. *)
Theorem relay_completion_and_half_close (es : list event) :
  let st := run es established in
  (gather_result st = Returned ->
     c2b st = Finished None /\ b2c st = Finished None) /\
  (result (gather_pipes es) = Ret tt -> gather_result st = Returned) /\
  (forall d n, at_end (source d st) -> paused (dest d st) = false ->
     (enough d st <= n)%nat ->
     finished (task d (run (alone d n) st)) = true /\
     task (other d) (run (alone d n) st) = task (other d) st) /\
  (forall d n, paused (dest d st) = true ->
     finished (task d (run (alone d n) st)) = false) /\
  (forall d, finished (task d st) = true ->
     closed (dest d st) = true /\
     at_end (dest d st) /\
     (forall es', fed (dest d (run es' st)) = fed (dest d st)) /\
     (forall n, paused (source d st) = false ->
        (enough (other d) st <= n)%nat ->
        finished (task (other d) (run (alone (other d) n) st)) = true)).
Proof.
  intros st.
  pose proof (run_inv es _ established_inv) as I. fold st in I.
  assert (Hprog : forall d n, at_end (source d st) ->
            paused (dest d st) = false -> (enough d st <= n)%nat ->
            finished (task d (run (alone d n) st)) = true).
  { intros d n He Hp Hn. apply alone_finishes; [exact He|exact Hp|].
    pose proof (todo_enough d st). lia. }
  refine (conj _ (conj _ (conj _ (conj _ _)))).
  - unfold gather_result. intros G.
    destruct I as (_ & _ & _ & _ & N1 & N2).
    destruct (gather_exc st) eqn:Hg; [discriminate|].
    destruct (c2b st) as [| |?|x] eqn:P1; cbn in G; try discriminate.
    destruct (b2c st) as [| |?|y] eqn:P2; cbn in G; try discriminate.
    split.
    + destruct x as [e|]; [destruct (N1 e eq_refl eq_refl)|reflexivity].
    + destruct y as [e|]; [destruct (N2 e eq_refl eq_refl)|reflexivity].
  - unfold gather_pipes. fold st.
    destruct (gather_result st); cbn; congruence.
  - intros d n He Hp Hn. split; [apply Hprog; assumption|].
    apply (alone_frame d n st).
  - intros d n Hp.
    destruct (inv_dir _ d (run_inv (alone d n) st I)) as ((_ & _ & Hf) & _).
    destruct (alone_paused d n st) as [_ Hq]. rewrite Hp in Hq.
    destruct (finished (task d (run (alone d n) st))); [|reflexivity].
    destruct (Hf eq_refl) as [_ Hx]. congruence.
  - intros d F.
    destruct (inv_dir st d I) as ((_ & _ & Hf) & (Hce & _) & _).
    destruct (Hf F) as [Hc Hq].
    assert (Hend : at_end (dest d st)) by (apply Hce; assumption).
    refine (conj Hc (conj Hend (conj _ _))).
    + intros es'. rewrite !dest_conn_of. apply run_closed_frozen.
      rewrite <- dest_conn_of. exact Hc.
    + intros n Hp Hn. apply Hprog; [|destruct d; exact Hp|exact Hn].
      destruct d; exact Hend.
Qed.

(** ** Concrete runs *)

Lemma resolver_absent_on_failure_timeout :
  resolve_container_ip world_docker_timeout =
    ([Subprocess ps_argv 5;
      Log DEBUG [Lit "resolve_container_ip error: "; FExn TimeoutExpired]],
     Ret PNone) /\
  resolve_container_ip world_without_container =
    ([Subprocess ps_argv 5], Ret PNone).
Proof.
  split.
  - destruct (resolver_absent_on_failure world_docker_timeout)
      as (_ & _ & _ & H & _).
    exact (H TimeoutExpired eq_refl eq_refl).
  - destruct (resolver_absent_on_failure world_without_container)
      as (_ & _ & H & _).
    exact (H EmptyString eq_refl eq_refl).
Defined.

(** C3 as stated fails where no instance matches: the resolver returns
    [None] there and logs nothing, at any level. *)
Lemma resolver_logs_nothing_without_container :
  result (resolve_container_ip world_without_container) = Ret PNone /\
  existsb is_Log (trace (resolve_container_ip world_without_container))
    = false.
Proof. split; reflexivity. Qed.

Lemma handler_refuses_without_backend_run :
  handle_connection world_without_container [] a_peer 9000 =
    ([Subprocess ps_argv 5;
      Log WARNING [Lit "[:"; FInt 9000; Lit "] "; FPeer a_peer;
                   Lit " → no Mox container running, refusing"];
      Close Client],
     Ret tt) /\
  existsb is_Connect
    (trace (handle_connection world_without_container [] a_peer 9000)) = false.
Proof.
  exact (handler_refuses_without_backend world_without_container [] a_peer
           9000 eq_refl).
Defined.

Lemma handler_dials_same_port_run :
  filter is_Connect (trace (handle_connection world_refusing [] a_peer 9001)) =
    [Connect bridge_ip 9001 5] /\
  handle_connection world_refusing [] a_peer 9001 =
    ([Subprocess ps_argv 5; Subprocess (inspect_argv first_id) 5;
      Log INFO [Lit "[:"; FInt 9001; Lit "] "; FPeer a_peer; Lit " → ";
                FObj bridge_ip; Lit ":"; FInt 9001];
      Connect bridge_ip 9001 5;
      Log WARNING [Lit "[:"; FInt 9001; Lit "] "; FPeer a_peer;
                   Lit " → connect to "; FObj bridge_ip; Lit ":"; FInt 9001;
                   Lit " failed: "; FExn ConnectionRefusedError];
      Close Client],
     Ret tt).
Proof.
  destruct (handler_dials_same_port world_refusing [] a_peer 9001 bridge_ip
              eq_refl eq_refl) as [H1 H2].
  split; [exact H1|].
  exact (H2 ConnectionRefusedError eq_refl eq_refl).
Defined.

Lemma out_of_range_port_exits_run :
  exit_status
    (result (script world_refusing ["mox-port-forward.py"; "9000"; "8080"])) =
    Some 1 /\
  filter (fun x => negb (is_Log x))
    (trace (script world_refusing ["mox-port-forward.py"; "9000"; "8080"])) =
    [].
Proof.
  apply (out_of_range_port_exits world_refusing
           ["mox-port-forward.py"; "9000"; "8080"] "8080" 8080).
  - cbn. auto.
  - reflexivity.
  - reflexivity.
Defined.

Lemma resolver_first_found_run :
  resolve_container_ip world_refusing =
    ([Subprocess ps_argv 5; Subprocess (inspect_argv first_id) 5],
     Ret bridge_ip).
Proof.
  apply (resolver_first_found world_refusing first_id [second_id] "[{...}]"
           [("Id", PStr first_id);
            ("NetworkSettings",
             PDict
               [("Networks",
                 PDict
                   [("none", PDict [("IPAddress", PStr EmptyString)]);
                    ("bridge", PDict [("IPAddress", bridge_ip)]);
                    ("mox", PDict [("IPAddress", PStr "10.89.0.5")])])])]
           []
           [("Networks",
             PDict
               [("none", PDict [("IPAddress", PStr EmptyString)]);
                ("bridge", PDict [("IPAddress", bridge_ip)]);
                ("mox", PDict [("IPAddress", PStr "10.89.0.5")])])]
           [("none", PDict [("IPAddress", PStr EmptyString)]);
            ("bridge", PDict [("IPAddress", bridge_ip)]);
            ("mox", PDict [("IPAddress", PStr "10.89.0.5")])]
           [("none", PDict [("IPAddress", PStr EmptyString)])]
           [("mox", PDict [("IPAddress", PStr "10.89.0.5")])]
           [("IPAddress", bridge_ip)]
           "bridge" bridge_ip); reflexivity.
Defined.

Lemma non_integer_argument_exits_run :
  script world_refusing ["mox-port-forward.py"; "8080"; "http"] =
    ([], Raise ValueError) /\
  exit_status
    (result (script world_refusing ["mox-port-forward.py"; "8080"; "http"])) =
    Some 1.
Proof.
  apply (non_integer_argument_exits world_refusing
           ["mox-port-forward.py"; "8080"; "http"] "http").
  - cbn. auto.
  - reflexivity.
Defined.

Lemma startup_resolution_is_informational_run :
  filter is_Listen (trace (main world_without_container [9000; 9001])) =
    [Listen "0.0.0.0" 9000; Listen "0.0.0.0" 9001] /\
  filter is_Listen (trace (main world_refusing [9000; 9001])) =
    [Listen "0.0.0.0" 9000; Listen "0.0.0.0" 9001].
Proof.
  split.
  - exact (proj1 (proj2 (startup_resolution_is_informational
                           world_without_container [9000; 9001] PNone eq_refl))).
  - exact (proj1 (proj2 (startup_resolution_is_informational
                           world_refusing [9000; 9001] bridge_ip eq_refl))).
Defined.

Lemma relay_copies_bytes_run :
  (task C2B (run (request_schedule ++ alone C2B 5) established) =
     Finished None /\
   wire (upstream (run (request_schedule ++ alone C2B 5) established)) =
     GET ++ [x0a]) /\
  wire (upstream (run ([Recv Client GET] ++ alone C2B 9) established)) =
    sent_by Client [Recv Client GET].
Proof.
  split.
  - destruct (relay_copies_bytes request_schedule C2B) as (_ & _ & _ & _ & H).
    destruct (H eq_refl) as (_ & _ & _ & H4).
    exact (H4 eq_refl eq_refl 5%nat (le_n 5)).
  - destruct (relay_copies_bytes [Recv Client GET] C2B)
      as (_ & _ & _ & Hs & H).
    destruct (H eq_refl) as (_ & _ & H3 & _).
    destruct (H3 eq_refl 9%nat (le_n 9)) as [_ Hw].
    exact (eq_trans Hw (Hs eq_refl eq_refl)).
Defined.


Lemma relay_completion_and_half_close_run :
  closed (upstream (run client_eof_schedule established)) = true /\
  finished (b2c (run (alone B2C 3) (run client_eof_schedule established))) =
    true /\
  finished (c2b (run (alone C2B 7) (run slow_backend_schedule established))) =
    false.
Proof.
  destruct (relay_completion_and_half_close client_eof_schedule)
    as (_ & _ & _ & _ & H).
  destruct (H C2B eq_refl) as (H1 & _ & _ & H4).
  split; [exact H1|].
  split; [exact (H4 3%nat eq_refl (le_n 3))|].
  destruct (relay_completion_and_half_close slow_backend_schedule)
    as (_ & _ & _ & H5 & _).
  exact (H5 C2B 7%nat eq_refl).
Defined.

(** C1 as stated fails when the client closes its write side before the
    answer: no connection is lost and the request reaches the backend
    whole, but the forwarder has then closed the backend's connection,
    and of the two bytes the backend sends the client receives none. *)
Lemma reply_after_half_close_is_lost :
  no_lost lost_reply_schedule = true /\
  sent_by Client lost_reply_schedule = GET ++ [x0a] /\
  wire (upstream (run lost_reply_schedule established)) = GET ++ [x0a] /\
  sent_by Upstream lost_reply_schedule = [x68; x69] /\
  wire (client (run lost_reply_schedule established)) = [] /\
  gather_result (run lost_reply_schedule established) = Returned.
Proof. repeat split; reflexivity. Qed.

(** C2 as stated fails at the half close: the backend has neither closed
    nor failed and has sent two more bytes, yet the backend-to-client
    direction has ended, and the client has received nothing. *)
Lemma half_close_ends_both_directions :
  existsb (ends Upstream) half_close_schedule = false /\
  no_lost half_close_schedule = true /\
  In (Recv Upstream [x68; x69]) half_close_schedule /\
  b2c (run half_close_schedule established) = Finished None /\
  wire (client (run half_close_schedule established)) = [] /\
  gather_result (run half_close_schedule established) = Returned.
Proof.
  repeat split; try reflexivity.
  cbn. auto.
Qed.

(** * Further properties *)

(** ** Address resolver: queries and descriptors *)

Lemma splitlines_nonempty s x ls :
  splitlines s = x :: ls -> is_empty s = false.
Proof. destruct s; [discriminate|reflexivity]. Qed.

(** After the two queries and the parse, the body is lines 52-56. *)
Lemma resolve_body_described w out id ls info data :
  docker_ps w = inr out -> splitlines (strip out) = id :: ls ->
  docker_inspect w id = inr info -> json_loads w info = inr data ->
  resolve_body w =
    ([Subprocess ps_argv 5; Subprocess (inspect_argv id) 5]
       ++ trace (descriptor_ip data),
     result (descriptor_ip data)).
Proof.
  intros Hps Hl Hi Hj.
  pose proof (splitlines_nonempty _ _ _ Hl) as Hne.
  unfold resolve_body, check_output. rewrite Hps. cbn.
  unfold M_bind at 1. cbn [fst snd]. rewrite Hne, Hl. cbn.
  rewrite Hi. cbn. rewrite Hj. cbn.
  reflexivity.
Qed.

Lemma resolve_of_body_ret w t v :
  resolve_body w = (t, Ret v) -> resolve_container_ip w = (t, Ret v).
Proof.
  intros E. pose proof (resolve_by_body w) as H. rewrite E in H. exact H.
Qed.

Lemma resolve_of_body_raise w t e :
  resolve_body w = (t, Raise e) -> is_Exception e = true ->
  resolve_container_ip w = (t ++ [debug_record e], Ret PNone).
Proof.
  intros E He. pose proof (resolve_by_body w) as H. rewrite E in H.
  cbn in H. rewrite He in H. exact H.
Qed.

(** The resolver runs [docker ps] first, with a timeout of 5 seconds, and
    then at most one more command: [docker inspect], with the same
    timeout, on the first line of the stripped listing, and only if the
    listing is not empty.  It runs nothing else. *)
Theorem resolver_queries_bounded (w : env) :
  filter is_Subprocess (trace (resolve_container_ip w)) =
    [Subprocess ps_argv 5] \/
  exists out id ls,
    docker_ps w = inr out /\ splitlines (strip out) = id :: ls /\
    filter is_Subprocess (trace (resolve_container_ip w)) =
      [Subprocess ps_argv 5; Subprocess (inspect_argv id) 5].
Proof.
  assert (Hf : forall t : list effect,
            Forall (fun x => is_Subprocess x = true) t ->
            forall o, filter is_Subprocess
                        (trace (match o with
                                | Ret v => (t, Ret v)
                                | Raise e =>
                                    if is_Exception e
                                    then (t ++ [debug_record e], Ret PNone)
                                    else (t, @Raise pyobj e)
                                | Hang => (t, Hang)
                                end)) = t).
  { intros t Ht o.
    assert (Hid : filter is_Subprocess t = t).
    { induction Ht as [|x l Hx _ IH]; cbn; [reflexivity|].
      rewrite Hx, IH. reflexivity. }
    destruct o as [v|e|]; [exact Hid| |exact Hid].
    destruct (is_Exception e); [|exact Hid].
    unfold trace. cbn [fst]. rewrite filter_app, Hid. cbn.
    apply app_nil_r. }
  assert (Hres : resolve_container_ip w =
                 match result (resolve_body w) with
                 | Ret v => (trace (resolve_body w), Ret v)
                 | Raise e =>
                     if is_Exception e
                     then (trace (resolve_body w) ++ [debug_record e],
                           Ret PNone)
                     else (trace (resolve_body w), Raise e)
                 | Hang => (trace (resolve_body w), Hang)
                 end).
  { pose proof (resolve_by_body w) as H.
    destruct (result (resolve_body w)) as [v|e|]; [exact H| |tauto].
    destruct (is_Exception e); exact H. }
  rewrite Hres, (Hf _ (resolve_body_trace w)).
  destruct (resolve_body_cases w)
    as [(e & _ & E)|[(out & _ & _ & E)|[(out & id & ls & Hps & _ & Hl & H)|
        (out & _ & _ & _ & E)]]];
    try (left; rewrite E; reflexivity).
  right. exists out, id, ls. split; [exact Hps|split; [exact Hl|]].
  destruct H as [(e & _ & E)|(info & _ & [(e & _ & E)|(data & _ & o & E & _)])];
    rewrite E; reflexivity.
Qed.

(** A descriptor without ["NetworkSettings"], or whose settings have no
    ["Networks"] or an empty one, is no error: the defaults of the two
    [get] calls make the loop run over nothing, and the resolver returns
    [None] after its two queries without logging anything. *)
Theorem resolver_missing_keys
    (w : env) (out id : string) (ls : list string) (info : string)
    (d0 : list (string * pyobj)) (others : list pyobj) :
  docker_ps w = inr out -> splitlines (strip out) = id :: ls ->
  docker_inspect w id = inr info ->
  json_loads w info = inr (PList (PDict d0 :: others)) ->
  assoc "NetworkSettings" d0 = None \/
  (exists settings,
     assoc "NetworkSettings" d0 = Some (PDict settings) /\
     (assoc "Networks" settings = None \/
      assoc "Networks" settings = Some (PDict []))) ->
  resolve_container_ip w =
    ([Subprocess ps_argv 5; Subprocess (inspect_argv id) 5], Ret PNone).
Proof.
  intros Hps Hl Hi Hj Hk.
  apply resolve_of_body_ret.
  rewrite (resolve_body_described w out id ls info _ Hps Hl Hi Hj).
  unfold descriptor_ip. cbn.
  destruct Hk as [Hk|(settings & Hk & [Hn|Hn])]; rewrite Hk; cbn;
    rewrite ?Hn; reflexivity.
Qed.

(** A network that is not a dict stops the loop with [AttributeError] as
    soon as it is reached: if no network before it has an address, the
    resolver returns [None] and logs the error at debug level, whatever
    addresses the networks after it have. *)
Theorem resolver_malformed_network
    (w : env) (out id : string) (ls : list string) (info : string)
    (d0 : list (string * pyobj)) (others : list pyobj)
    (settings networks pre post : list (string * pyobj))
    (name : string) (v : pyobj) :
  docker_ps w = inr out -> splitlines (strip out) = id :: ls ->
  docker_inspect w id = inr info ->
  json_loads w info = inr (PList (PDict d0 :: others)) ->
  assoc "NetworkSettings" d0 = Some (PDict settings) ->
  assoc "Networks" settings = Some (PDict networks) ->
  networks = pre ++ (name, v) :: post ->
  forallb no_address (map snd pre) = true ->
  is_dict v = false ->
  resolve_container_ip w =
    ([Subprocess ps_argv 5; Subprocess (inspect_argv id) 5;
      debug_record AttributeError],
     Ret PNone).
Proof.
  intros Hps Hl Hi Hj Hs Hn -> Hpre Hv.
  apply (resolve_of_body_raise w
           [Subprocess ps_argv 5; Subprocess (inspect_argv id) 5]
           AttributeError); [|reflexivity].
  rewrite (resolve_body_described w out id ls info _ Hps Hl Hi Hj).
  unfold descriptor_ip. cbn. rewrite Hs. cbn. rewrite Hn. cbn.
  assert (E : first_ip (map snd (pre ++ (name, v) :: post)) =
              ([], Raise AttributeError)).
  { clear - Hpre Hv. induction pre as [|[n x] pre IH].
    - cbn. destruct v; try discriminate; reflexivity.
    - cbn in Hpre. apply andb_true_iff in Hpre. destruct Hpre as [Hx Hpre].
      destruct x as [| | | | | |items]; try discriminate.
      cbn in Hx. apply negb_true_iff in Hx.
      cbn. rewrite Hx, (IH Hpre). reflexivity. }
  rewrite E. reflexivity.
Qed.

(** A descriptor that is not a list starting with a dict (an empty list,
    an object, a string, a number, [null], a list of something else)
    makes line 52 raise; the resolver returns [None] and logs that error
    at debug level. *)
Theorem resolver_malformed_descriptor
    (w : env) (out id : string) (ls : list string) (info : string)
    (data : pyobj) :
  docker_ps w = inr out -> splitlines (strip out) = id :: ls ->
  docker_inspect w id = inr info ->
  json_loads w info = inr data ->
  descriptor_head data = None ->
  exists e,
    is_Exception e = true /\
    resolve_container_ip w =
      ([Subprocess ps_argv 5; Subprocess (inspect_argv id) 5;
        debug_record e],
       Ret PNone).
Proof.
  intros Hps Hl Hi Hj Hd.
  assert (E : exists e, is_Exception e = true /\
                        descriptor_ip data = ([], Raise e)).
  { unfold descriptor_ip.
    destruct data as [| | | |s|l|items]; cbn;
      try (eexists; split; [|reflexivity]; reflexivity).
    - destruct s; cbn; eexists; split; try reflexivity; reflexivity.
    - destruct l as [|x l]; cbn;
        [eexists; split; [|reflexivity]; reflexivity|].
      destruct x; cbn in *; try discriminate;
        eexists; split; try reflexivity; reflexivity. }
  destruct E as (e & He & E). exists e. split; [exact He|].
  apply (resolve_of_body_raise w
           [Subprocess ps_argv 5; Subprocess (inspect_argv id) 5] e);
    [|exact He].
  rewrite (resolve_body_described w out id ls info _ Hps Hl Hi Hj), E.
  reflexivity.
Qed.

(** ** Connection handler: order, containment, the way through *)

Lemma resolve_starts_with_ps w :
  exists t, trace (resolve_container_ip w) = Subprocess ps_argv 5 :: t.
Proof.
  pose proof (resolve_by_body w) as H.
  assert (Hb : exists t, trace (resolve_body w) = Subprocess ps_argv 5 :: t).
  { destruct (resolve_body_cases w)
      as [(e & _ & E)|[(out & _ & _ & E)|[(out & id & ls & _ & _ & _ & Hc)|
          (out & _ & _ & _ & E)]]];
      try (rewrite E; eexists; reflexivity).
    destruct Hc
      as [(e & _ & E)|(info & _ & [(e & _ & E)|(data & _ & o & E & _)])];
      rewrite E; eexists; reflexivity. }
  destruct Hb as (t & Hb).
  destruct (result (resolve_body w)) as [v|e|]; [| |tauto].
  - rewrite H. exists t. exact Hb.
  - destruct (is_Exception e); rewrite H; unfold trace at 1; cbn [fst];
      rewrite Hb; eexists; reflexivity.
Qed.

Lemma resolve_raises_no_error w e :
  result (resolve_container_ip w) = Raise e -> is_Exception e = false.
Proof.
  intros He. pose proof (resolve_by_body w) as H.
  destruct (result (resolve_body w)) as [v|e'|];
    [rewrite H in He; discriminate| |tauto].
  destruct (is_Exception e') eqn:E; rewrite H in He; cbn in He; congruence.
Qed.

Lemma resolve_closes_nothing w :
  filter is_Close (trace (resolve_container_ip w)) = [].
Proof.
  pose proof (resolve_trace w) as H.
  induction H as [|x l Hx _ IH]; cbn; auto.
  rewrite IH. destruct x as [[] ?| | | |]; cbn in *; congruence.
Qed.

(** What the handler does after the resolver, by the outcome of the
    resolver and of the dial. *)
Lemma handle_connection_cases w sched peer port :
  exists rest o,
    handle_connection w sched peer port =
      (trace (resolve_container_ip w) ++ rest, o) /\
    filter is_Subprocess rest = [] /\
    match result (resolve_container_ip w) with
    | Ret ip =>
        if truthy ip then
          match dial w ip port with
          | Some e =>
              if is_Exception e then
                o = Ret tt /\ filter is_Close rest = [Close Client]
              else o = Raise e /\ filter is_Close rest = []
          | None =>
              filter is_Close rest = [] /\
              match Relay.gather_result
                      (Relay.run sched Relay.established) with
              | Relay.Returned =>
                  rest = [dial_record peer port ip; Connect ip port 5;
                          closed_record peer port] /\
                  o = Ret tt
              | Relay.Pending =>
                  rest = [dial_record peer port ip; Connect ip port 5] /\
                  o = Hang
              | Relay.Raised e =>
                  rest = [dial_record peer port ip; Connect ip port 5] /\
                  o = Raise e
              end
          end
        else o = Ret tt /\ filter is_Close rest = [Close Client]
    | Raise e => rest = [] /\ o = Raise e
    | Hang => rest = []
    end.
Proof.
  unfold handle_connection.
  generalize (resolve_container_ip w). intros [t [ip|e|]];
    unfold result, trace; cbn [fst snd bind Monad_M]; unfold M_bind at 1;
    cbn [fst snd].
  - destruct (truthy ip); cbn [negb].
    + unfold open_connection, gather_pipes.
      destruct (dial w ip port) as [e|]; cbn; unfold M_bind, M_catch; cbn.
      * destruct (is_Exception e); cbn; eexists; eexists;
          (split; [reflexivity|]); split; try reflexivity;
          split; reflexivity.
      * destruct (Relay.gather_result _); cbn; eexists; eexists;
          (split; [reflexivity|split; [reflexivity|split; [reflexivity|]]]);
          split; reflexivity.
    + cbn. eexists; eexists; split; [reflexivity|]. split; [reflexivity|].
      split; reflexivity.
  - exists [], (Raise e). rewrite app_nil_r. repeat split.
  - exists [], Hang. rewrite app_nil_r. repeat split.
Qed.

(** Every connection is resolved anew and before anything else: the first
    effect of the handler is the [docker ps] query, the handler runs no
    command of its own after the resolver's, and it dials, logs and closes
    only after the resolver has answered. *)
Theorem handler_resolves_first
    (w : env) (sched : list Relay.event) (peer : peername) (port : Z) :
  hd_error (trace (handle_connection w sched peer port)) =
    Some (Subprocess ps_argv 5) /\
  exists rest,
    trace (handle_connection w sched peer port) =
      trace (resolve_container_ip w) ++ rest /\
    filter is_Subprocess rest = [] /\
    filter is_Connect (trace (resolve_container_ip w)) = [] /\
    filter is_Close (trace (resolve_container_ip w)) = [].
Proof.
  destruct (handle_connection_cases w sched peer port)
    as (rest & o & E & Hs & _).
  destruct (resolve_starts_with_ps w) as (t & Ht).
  split.
  - rewrite E. unfold trace at 1. cbn [fst]. rewrite Ht. reflexivity.
  - exists rest. rewrite E. unfold trace at 1. cbn [fst].
    exact (conj eq_refl (conj Hs (conj (resolve_connects_nothing w)
                                       (resolve_closes_nothing w)))).
Qed.

(** The failures of one connection stay in its handler: when connections
    are lost with transport errors only, the handler raises no error,
    whatever the control plane, the dial and the peers do.  Only an
    exception outside [Exception], raised in the resolver or by the dial,
    passes through it. *)
Theorem handler_contains_failures
    (w : env) (sched : list Relay.event) (peer : peername) (port : Z)
    (e : exn) :
  transport_errors_only sched = true ->
  result (handle_connection w sched peer port) = Raise e ->
  is_Exception e = false.
Proof.
  intros Ht He.
  destruct (handle_connection_cases w sched peer port)
    as (rest & o & E & _ & H).
  rewrite E in He. unfold result in He. cbn [snd] in He. subst o.
  destruct (result (resolve_container_ip w)) as [ip|e'|] eqn:Hr.
  - destruct (truthy ip).
    + destruct (dial w ip port) as [e'|].
      * destruct (is_Exception e') eqn:Hx; destruct H as [H _];
          congruence.
      * destruct H as [_ H].
        pose proof (RelayFacts.run_tinv sched _ Ht RelayFacts.established_tinv)
          as (_ & _ & _ & _ & Hg).
        unfold Relay.gather_result in H. rewrite Hg in H.
        destruct (_ && _); destruct H as [_ H]; discriminate.
    + destruct H as [H _]. discriminate.
  - destruct H as [_ H]. injection H as <-.
    apply (resolve_raises_no_error w e Hr).
  - pose proof (resolve_by_body w) as Hb.
    destruct (result (resolve_body w)) as [v|x|]; [| |tauto].
    + rewrite Hb in Hr. discriminate.
    + destruct (is_Exception x); rewrite Hb in Hr; discriminate.
Qed.

(** The way through: with an address and a connection made, the handler
    waits for the relay.  If the relay returns, both connections are
    closed by then, and the handler adds the [closed] record and returns
    without closing anything itself.  If the relay never completes, the
    handler stays suspended and the [closed] record is never written. *)
Theorem handler_logs_closed_after_relay
    (w : env) (sched : list Relay.event) (peer : peername) (port : Z)
    (ip : pyobj) :
  result (resolve_container_ip w) = Ret ip ->
  truthy ip = true ->
  dial w ip port = None ->
  (Relay.gather_result (Relay.run sched Relay.established) = Relay.Returned ->
     handle_connection w sched peer port =
       (trace (resolve_container_ip w) ++
          [dial_record peer port ip; Connect ip port 5;
           closed_record peer port],
        Ret tt) /\
     Relay.closed (Relay.client (Relay.run sched Relay.established)) = true /\
     Relay.closed (Relay.upstream (Relay.run sched Relay.established)) = true)
  /\
  (Relay.gather_result (Relay.run sched Relay.established) = Relay.Pending ->
     handle_connection w sched peer port =
       (trace (resolve_container_ip w) ++
          [dial_record peer port ip; Connect ip port 5],
        Hang)).
Proof.
  intros Hr Ht Hd.
  destruct (handle_connection_cases w sched peer port)
    as (rest & o & E & _ & H).
  rewrite Hr, Ht, Hd in H. destruct H as [_ H].
  split; intros Hg; rewrite Hg in H; destruct H as [-> ->]; [|exact E].
  split; [exact E|].
  pose proof (RelayFacts.run_inv sched _ RelayFacts.established_inv)
    as ((_ & _ & F1) & (_ & _ & F2) & _).
  unfold Relay.gather_result in Hg.
  destruct (Relay.gather_exc _); [discriminate|].
  destruct (Relay.finished (Relay.c2b _)) eqn:P1; [|discriminate].
  destruct (Relay.finished (Relay.b2c _)) eqn:P2; [|discriminate].
  split; [apply F2|apply F1]; reflexivity.
Qed.

(** The handler closes the inbound stream itself exactly when it refuses
    the connection, for want of an address or after a dial that failed
    with an error; it does so once, and returns.  On every other path,
    the relay or an exception outside [Exception] from the resolver or
    the dial, the handler closes nothing itself. *)
Theorem handler_closes_on_refusal_only
    (w : env) (sched : list Relay.event) (peer : peername) (port : Z) :
  filter is_Close (trace (handle_connection w sched peer port)) =
    (if refuses w port then [Close Client] else []) /\
  (refuses w port = true ->
   result (handle_connection w sched peer port) = Ret tt).
Proof.
  destruct (handle_connection_cases w sched peer port)
    as (rest & o & E & _ & H).
  rewrite E. unfold trace at 1, result at 1. cbn [fst snd].
  rewrite filter_app, resolve_closes_nothing. cbn [app].
  unfold refuses.
  destruct (result (resolve_container_ip w)) as [ip|e|].
  - destruct (truthy ip).
    + destruct (dial w ip port) as [e|].
      * destruct (is_Exception e); destruct H as [-> ->];
          (split; [reflexivity|congruence]).
      * destruct H as [-> _]. split; [reflexivity|discriminate].
    + destruct H as [-> ->]. split; reflexivity.
  - destruct H as [-> _]. split; [reflexivity|discriminate].
  - subst rest. split; [reflexivity|discriminate].
Qed.

(** ** Process entry: validation, serving, shutdown *)

Lemma in_range_spec p : in_range p = true <-> 9000 <= p <= 9099.
Proof.
  unfold in_range. rewrite andb_true_iff, !Z.leb_le. tauto.
Qed.

Lemma check_ports_ok ports :
  forallb in_range ports = true -> check_ports ports = ([], Ret tt).
Proof.
  induction ports as [|p ports IH]; cbn; [reflexivity|].
  intros H. apply andb_true_iff in H. destruct H as [Hp H].
  rewrite Hp. cbn. exact (IH H).
Qed.

Lemma check_ports_first pre q post :
  forallb in_range pre = true -> in_range q = false ->
  check_ports (pre ++ q :: post) = ([range_record q], Raise (SystemExit 1)).
Proof.
  intros Hpre Hq. induction pre as [|p pre IH]; cbn.
  - rewrite Hq. reflexivity.
  - cbn in Hpre. apply andb_true_iff in Hpre. destruct Hpre as [Hp Hpre].
    rewrite Hp. cbn. exact (IH Hpre).
Qed.

(** The range check of lines 133-136 lets a list of ports through exactly
    when every port lies in 9000..9099, both bounds included; otherwise
    it reports the first port of the list that lies outside, that one
    only, and exits with status 1. *)
Theorem range_check_decides (ports : list Z) :
  ((forall p, In p ports -> 9000 <= p <= 9099) ->
   check_ports ports = ([], Ret tt)) /\
  (forall pre q post,
     ports = pre ++ q :: post ->
     (forall p, In p pre -> 9000 <= p <= 9099) ->
     ~ (9000 <= q <= 9099) ->
     check_ports ports = ([range_record q], Raise (SystemExit 1)) /\
     exit_status (result (check_ports ports)) = Some 1).
Proof.
  assert (Hall : forall l, (forall p, In p l -> 9000 <= p <= 9099) ->
                           forallb in_range l = true).
  { intros l Hl. apply forallb_forall. intros p Hp.
    apply in_range_spec, Hl, Hp. }
  split.
  - intros H. apply check_ports_ok, Hall, H.
  - intros pre q post -> Hpre Hq.
    assert (Hq' : in_range q = false).
    { destruct (in_range q) eqn:E; [|reflexivity].
      apply in_range_spec in E. contradiction. }
    rewrite (check_ports_first pre q post (Hall _ Hpre) Hq').
    split; reflexivity.
Qed.

Lemma parse_ports_ok args ports :
  Forall2 (fun a p => py_int a = Some p) args ports ->
  parse_ports args = ([], Ret ports).
Proof.
  induction 1 as [|a p args ports Ha _ IH]; cbn; [reflexivity|].
  rewrite Ha. cbn. unfold M_bind; cbn. rewrite IH. reflexivity.
Qed.

(** With arguments that all convert to ports in the range, the script is
    lines 137-140 on these ports. *)
Lemma script_valid w argv ports :
  tl argv <> [] ->
  Forall2 (fun a p => py_int a = Some p) (tl argv) ports ->
  forallb in_range ports = true ->
  script w argv = serve w ports /\ ports <> [].
Proof.
  intros Hne Hp Hr. split.
  - unfold script.
    assert (Hlen : (1 <? Z.of_nat (length argv)) = true).
    { destruct argv as [|x [|y l]]; cbn in Hne; try congruence.
      apply Z.ltb_lt. cbn [length]. lia. }
    rewrite Hlen.
    rewrite (bind_trace_ret _ _ _ _ ports)
      by (rewrite (parse_ports_ok _ _ Hp); reflexivity).
    rewrite (parse_ports_ok _ _ Hp). unfold trace, result. cbn [fst snd app].
    rewrite (bind_trace_ret _ _ _ _ tt)
      by (rewrite (check_ports_ok _ Hr); reflexivity).
    rewrite (check_ports_ok _ Hr). unfold trace, result. cbn [fst snd app].
    unfold serve. destruct (catch _ _); reflexivity.
  - destruct Hp; [contradiction|discriminate].
Qed.

Lemma main_after_resolution w ports ip :
  result (resolve_container_ip w) = Ret ip ->
  main w ports =
    (starting_record ports :: trace (resolve_container_ip w)
       ++ startup_record ip :: trace (listeners w ports),
     result (listeners w ports)).
Proof.
  intros Hr. unfold main. fold (listeners w ports).
  unfold log at 1, emit. cbn [bind Monad_M]. unfold M_bind at 1.
  cbn [fst snd app].
  rewrite (bind_trace_ret _ _ _ _ _ Hr). cbn [fst snd].
  unfold startup_record, starting_record.
  destruct (truthy ip); unfold trace, result; cbn; unfold M_bind; cbn;
    reflexivity.
Qed.

Lemma main_resolution_raises w ports e :
  result (resolve_container_ip w) = Raise e ->
  main w ports =
    (starting_record ports :: trace (resolve_container_ip w), Raise e).
Proof.
  intros Hr. unfold main.
  unfold log at 1, emit. cbn [bind Monad_M]. unfold M_bind at 1.
  cbn [fst snd app].
  rewrite (bind_trace_raise _ _ _ _ _ Hr). reflexivity.
Qed.

Lemma listeners_serving w ports :
  ports <> [] -> (forall p, In p ports -> bind_port w p = None) ->
  listeners w ports =
    (flat_map (fun p => [Listen "0.0.0.0" p; forwarding_record p]) ports,
     Hang).
Proof.
  unfold listeners.
  induction ports as [|p ports IH]; [congruence|].
  intros _ Hb. cbn [map gather_all flat_map].
  assert (Ep : start_forwarder w p =
               ([Listen "0.0.0.0" p; forwarding_record p], Hang)).
  { unfold start_forwarder. rewrite (Hb p (or_introl eq_refl)). reflexivity. }
  rewrite Ep. cbn [fst snd].
  destruct ports as [|q ports]; [reflexivity|].
  rewrite IH; [reflexivity|discriminate|].
  intros x Hx. apply Hb. right. exact Hx.
Qed.

Lemma listeners_first_failure w pre p post e :
  (forall q, In q pre -> bind_port w q = None) ->
  bind_port w p = Some e ->
  result (listeners w (pre ++ p :: post)) = Raise e.
Proof.
  intros Hpre Hp. unfold listeners, result.
  induction pre as [|q pre IH]; cbn [app map gather_all snd].
  - unfold start_forwarder. rewrite Hp. reflexivity.
  - rewrite IH by (intros x Hx; apply Hpre; right; exact Hx).
    unfold start_forwarder. rewrite (Hpre q (or_introl eq_refl)). reflexivity.
Qed.

Lemma serve_unfold w ports :
  serve w ports =
    match result (asyncio_run w (main w ports)) with
    | Raise KeyboardInterrupt =>
        (trace (asyncio_run w (main w ports)) ++ [shutdown_record], Ret tt)
    | _ => asyncio_run w (main w ports)
    end.
Proof.
  unfold serve. cbn [catch Exc_M]. unfold M_catch, result, trace.
  destruct (asyncio_run w (main w ports)) as [t [u|e|]]; cbn [fst snd];
    try reflexivity.
  destruct e; cbn; rewrite ?app_nil_r; reflexivity.
Qed.

Lemma asyncio_run_trace w m : trace (asyncio_run w m) = trace m.
Proof.
  unfold asyncio_run, trace. destruct (snd m); try reflexivity.
  destruct (interrupted w); reflexivity.
Qed.

Lemma serve_listens w ports :
  filter is_Listen (trace (serve w ports)) =
  filter is_Listen (trace (main w ports)).
Proof.
  rewrite serve_unfold.
  destruct (result (asyncio_run w (main w ports))) as [u|e|];
    try apply (f_equal (filter is_Listen) (asyncio_run_trace w _)).
  destruct e; try apply (f_equal (filter is_Listen) (asyncio_run_trace w _)).
  unfold trace at 1. cbn [fst]. rewrite filter_app. cbn.
  rewrite app_nil_r, asyncio_run_trace. reflexivity.
Qed.

(** Arguments that convert to distinct ports of the range are served:
    the script binds the wildcard address on each of these ports, in the
    order of the command line; and when every bind succeeds and nobody
    interrupts, it logs a record for each listener and runs for ever,
    with no exit status. *)
Theorem valid_ports_are_served
    (w : env) (argv : list string) (ports : list Z) (ip : pyobj) :
  tl argv <> [] ->
  Forall2 (fun a p => py_int a = Some p) (tl argv) ports ->
  forallb in_range ports = true ->
  NoDup ports ->
  result (resolve_container_ip w) = Ret ip ->
  filter is_Listen (trace (script w argv)) = map (Listen "0.0.0.0") ports /\
  ((forall p, In p ports -> bind_port w p = None) ->
   interrupted w = false ->
   result (script w argv) = Hang /\
   exit_status (result (script w argv)) = None /\
   (forall p, In p ports -> In (forwarding_record p) (trace (script w argv)))).
Proof.
  intros Hne Hp Hr _ Hres.
  destruct (script_valid w argv ports Hne Hp Hr) as [-> Hports].
  pose proof (main_after_resolution w ports ip Hres) as Hm.
  split.
  - rewrite serve_listens, Hm. unfold trace at 1.
    cbn [fst filter starting_record is_Listen].
    rewrite filter_app, resolve_no_listen. cbn [app filter].
    replace (is_Listen (startup_record ip)) with false
      by (unfold startup_record; destruct (truthy ip); reflexivity).
    apply listeners_listen.
  - intros Hb Hi.
    assert (E : serve w ports =
      (starting_record ports :: trace (resolve_container_ip w)
         ++ startup_record ip
         :: flat_map (fun p => [Listen "0.0.0.0" p; forwarding_record p])
              ports,
       Hang)).
    { rewrite serve_unfold. unfold asyncio_run. rewrite Hm. cbn [snd fst].
      rewrite (listeners_serving w ports Hports Hb).
      unfold result, trace. cbn [fst snd]. rewrite Hi. reflexivity. }
    rewrite E. split; [reflexivity|split; [reflexivity|]].
    intros p Hin. unfold trace. cbn [fst]. right.
    apply in_or_app. right. right.
    apply in_flat_map. exists p. split; [exact Hin|]. right. left.
    reflexivity.
Qed.

(** Without arguments the script serves the default port, 9000, which
    passes the range check. *)
Theorem no_arguments_default_port (w : env) (argv : list string) :
  (length argv <= 1)%nat ->
  script w argv = serve w [9000] /\
  (forall ip, result (resolve_container_ip w) = Ret ip ->
     filter is_Listen (trace (script w argv)) = [Listen "0.0.0.0" 9000]).
Proof.
  intros Hlen.
  assert (E : script w argv = serve w [9000]).
  { unfold script.
    replace (1 <? Z.of_nat (length argv)) with false
      by (symmetry; apply Z.ltb_ge; lia).
    unfold serve, DEFAULT_PORTS. cbn [bind ret Monad_M].
    unfold M_bind at 1. cbn [fst snd app].
    unfold M_bind at 1. cbn. destruct (M_catch _ _); reflexivity. }
  split; [exact E|].
  intros ip Hr. rewrite E, serve_listens, (main_after_resolution w _ ip Hr).
  unfold trace at 1. cbn [fst filter starting_record is_Listen].
  rewrite filter_app, resolve_no_listen. cbn [app filter].
  replace (is_Listen (startup_record ip)) with false
    by (unfold startup_record; destruct (truthy ip); reflexivity).
  apply (listeners_listen w [9000]).
Qed.


Lemma resolve_no_shutdown w :
  existsb is_Log_shutdown (trace (resolve_container_ip w)) = false.
Proof.
  pose proof (resolve_trace w) as H.
  induction H as [|x l Hx _ IH]; cbn; auto.
  rewrite IH. destruct x as [[] msg| | | |]; cbn in *;
    try congruence; reflexivity.
Qed.

(** A port that cannot be bound is fatal: when, of distinct ports, the
    bind of one fails with an error while the others are bound and
    nobody interrupts, the error leaves [gather], [main] and
    [asyncio.run] uncaught, and the process ends with exit status 1,
    without the record of line 140. *)
Theorem bind_failure_is_fatal
    (w : env) (argv : list string) (pre post : list Z) (p : Z)
    (ip : pyobj) (e : exn) :
  tl argv <> [] ->
  Forall2 (fun a q => py_int a = Some q) (tl argv) (pre ++ p :: post) ->
  forallb in_range (pre ++ p :: post) = true ->
  NoDup (pre ++ p :: post) ->
  result (resolve_container_ip w) = Ret ip ->
  (forall q, In q (pre ++ post) -> bind_port w q = None) ->
  bind_port w p = Some e ->
  is_Exception e = true ->
  interrupted w = false ->
  result (script w argv) = Raise e /\
  exit_status (result (script w argv)) = Some 1 /\
  existsb is_Log_shutdown (trace (script w argv)) = false.
Proof.
  intros Hne Hp Hr _ Hres Hall Hb He _.
  assert (Hpre : forall q, In q pre -> bind_port w q = None)
    by (intros q Hq; apply Hall, in_or_app; left; exact Hq).
  destruct (script_valid w argv _ Hne Hp Hr) as [-> _].
  pose proof (listeners_first_failure w pre p post e Hpre Hb) as Hl.
  assert (E : serve w (pre ++ p :: post) = main w (pre ++ p :: post)).
  { rewrite serve_unfold. unfold asyncio_run.
    rewrite (main_after_resolution w _ ip Hres). cbn [snd fst].
    rewrite Hl. unfold result. cbn [snd].
    destruct e; try reflexivity; discriminate. }
  pose proof (main_after_resolution w (pre ++ p :: post) ip Hres) as Hm.
  rewrite Hl in Hm. rewrite E, Hm.
  split; [reflexivity|split].
  - unfold result. cbn [snd]. destruct e; try reflexivity; discriminate.
  - unfold trace at 1. cbn [fst existsb starting_record is_Log_shutdown].
    rewrite existsb_app. cbn [existsb].
    rewrite resolve_no_shutdown.
    replace (is_Log_shutdown (startup_record ip)) with false
      by (unfold startup_record; destruct (truthy ip); reflexivity).
    cbn [orb]. clear. unfold listeners.
    induction (pre ++ p :: post) as [|q l IH]; [reflexivity|].
    cbn [map gather_all]. unfold trace in *. cbn [fst].
    rewrite existsb_app, IH, orb_false_r.
    unfold start_forwarder. destruct (bind_port w q); reflexivity.
Qed.

(** ** What reaches the log *)

Lemma resolve_writes_nothing w :
  filter written (trace (resolve_container_ip w)) = [].
Proof.
  pose proof (resolve_trace w) as H.
  induction H as [|x l Hx _ IH]; cbn; auto.
  rewrite IH. destruct x as [[] msg| | | |]; cbn in *;
    try congruence; reflexivity.
Qed.

(** At the level the script configures, INFO, nothing the resolver logs
    reaches the output: the error it caught is written nowhere.  A
    resolution that yields [None], for want of a container or by an
    error, shows in the output of a connection as the handler's warning
    alone. *)
Theorem resolution_failures_in_the_log
    (w : env) (sched : list Relay.event) (peer : peername) (port : Z) :
  filter written (trace (resolve_container_ip w)) = [] /\
  (result (resolve_container_ip w) = Ret PNone ->
   filter written (trace (handle_connection w sched peer port)) =
     [refusal_record peer port]).
Proof.
  split; [apply resolve_writes_nothing|].
  intros Hr. unfold handle_connection.
  rewrite (bind_trace_ret _ _ _ _ _ Hr). unfold trace at 1. cbn [fst].
  rewrite filter_app, resolve_writes_nothing. reflexivity.
Qed.

(** ** Stream relay: teardown, finality, chunks *)

Module RelayMore.
Import Relay RelaySpec RelayFacts.
Opaque BUF_SIZE.

Lemma other_other d : other (other d) = d.
Proof. destruct d; reflexivity. Qed.

Lemma source_other d st : source (other d) st = dest d st.
Proof. destruct d; reflexivity. Qed.

Lemma dest_other d st : dest (other d) st = source d st.
Proof. destruct d; reflexivity. Qed.

(** Once [gather] has an outcome, no event changes it. *)
Lemma step_gather_final st ev :
  inv st -> gather_result st <> Pending ->
  gather_result (step st ev) = gather_result st.
Proof.
  intros (_ & _ & _ & _ & N1 & N2) Hg. unfold gather_result in *.
  destruct ev as [s data|s|s e|s|s|d]; cbn [step];
    try (destruct s; reflexivity).
  destruct (gather_exc st) as [e|] eqn:G.
  - destruct d; cbn;
      [destruct (pipe_step (c2b st) (client st) (upstream st)) as [[p r] x]
      |destruct (pipe_step (b2c st) (upstream st) (client st)) as [[p r] x]];
      cbn; reflexivity.
  - destruct (c2b st) as [| |?|x] eqn:P1; cbn in Hg; try congruence.
    destruct (b2c st) as [| |?|y] eqn:P2; cbn in Hg; try congruence.
    assert (Hx : x = None).
    { destruct x as [e|]; [destruct (N1 e eq_refl eq_refl)|reflexivity]. }
    assert (Hy : y = None).
    { destruct y as [e|]; [destruct (N2 e eq_refl eq_refl)|reflexivity]. }
    subst x y.
    destruct d; cbn; rewrite ?P1, ?P2; cbn; rewrite ?P1, ?P2; reflexivity.
Qed.

Lemma run_gather_final es :
  forall st, inv st -> gather_result st <> Pending ->
    gather_result (run es st) = gather_result st.
Proof.
  induction es as [|ev es IH]; intros st I Hg; [reflexivity|].
  cbn [run fold_left]. fold (run es (step st ev)).
  pose proof (step_gather_final st ev I Hg) as E.
  rewrite IH; [exact E|apply step_inv, I|rewrite E; exact Hg].
Qed.

(** What one resumption of [pipe] hands to the transport of its writer:
    one chunk, of at most the size of the buffer, and nothing when the
    transport is closed. *)
Lemma pipe_step_wire p r w p' r' w' :
  pipe_step p r w = (p', r', w') ->
  wire r' = wire r /\
  exists data,
    wire w' = wire w ++ data /\
    (length data <= Z.to_nat BUF_SIZE)%nat /\
    (closed w = true -> data = []).
Proof.
  intros E. split; [apply (pipe_step_frame _ _ _ _ _ _ E)|].
  assert (Hsame : forall x : conn, wire x = wire w ->
            exists data, wire x = wire w ++ data /\
              (length data <= Z.to_nat BUF_SIZE)%nat /\
              (closed w = true -> data = [])).
  { intros x Hx. exists []. rewrite app_nil_r. repeat split; auto.
    cbn. lia. }
  destruct p as [| |pending|x]; unfold pipe_step in E.
  - destruct (read_cases BUF_SIZE r)
      as [(e & _ & R)|[(_ & _ & _ & R)|[(_ & _ & _ & R)|(_ & Hne & R)]]];
      rewrite R in E; try (injection E as <- <- <-; apply Hsame; reflexivity).
    pose proof (firstn_le_length (Z.to_nat BUF_SIZE) (rbuf r)) as Hle.
    pose proof (firstn_nonempty _ _ buf_size_pos Hne) as Hd.
    destruct (firstn (Z.to_nat BUF_SIZE) (rbuf r)) as [|b d] eqn:F;
      [congruence|].
    injection E as <- <- <-. unfold write.
    destruct (closed w) eqn:C; cbn.
    + exists []. rewrite app_nil_r. repeat split; auto. cbn. lia.
    + exists (b :: d). repeat split; auto. discriminate.
  - destruct (drain w); injection E as <- <- <-; apply Hsame; reflexivity.
  - cbv zeta in E.
    assert (Hc : wire (close w) = wire w)
      by (unfold close; destruct (closed w); reflexivity).
    destruct (wait_closed (close w)) as [|e|];
      [|destruct (is_Exception e)|]; injection E as <- <- <-;
      apply Hsame; exact Hc.
  - injection E as <- <- <-. apply Hsame; reflexivity.
Qed.

Lemma peer_keeps_wire s s' f st :
  peer_op f -> wire (conn_of s (on_conn s' f st)) = wire (conn_of s st).
Proof.
  intros [data| |e| |]; destruct s, s'; cbn;
    unfold feed_data, feed_eof, connection_lost, pause_writing,
      resume_writing;
    repeat match goal with
           | |- context [if ?b then _ else _] => destruct b
           end; reflexivity.
Qed.

Lemma step_wire st ev s :
  exists more,
    wire (conn_of s (step st ev)) = wire (conn_of s st) ++ more /\
    (closed (conn_of s st) = true -> more = []).
Proof.
  assert (Hsame : forall x : state,
            wire (conn_of s x) = wire (conn_of s st) ->
            exists more,
              wire (conn_of s x) = wire (conn_of s st) ++ more /\
              (closed (conn_of s st) = true -> more = [])).
  { intros x Hx. exists []. rewrite app_nil_r. auto. }
  destruct ev as [s' data|s'|s' e|s'|s'|d]; cbn [step];
    try (apply Hsame, peer_keeps_wire; constructor).
  destruct d.
  - destruct (pipe_step (c2b st) (client st) (upstream st))
      as [[p' r'] w'] eqn:E.
    destruct (pipe_step_wire _ _ _ _ _ _ E) as (Hr & data & Hw & _ & Hc).
    destruct s; cbn.
    + exists []. rewrite app_nil_r. auto.
    + exists data. auto.
  - destruct (pipe_step (b2c st) (upstream st) (client st))
      as [[p' r'] w'] eqn:E.
    destruct (pipe_step_wire _ _ _ _ _ _ E) as (Hr & data & Hw & _ & Hc).
    destruct s; cbn.
    + exists data. auto.
    + exists []. rewrite app_nil_r. auto.
Qed.

Lemma run_wire es :
  forall st s,
    exists more,
      wire (conn_of s (run es st)) = wire (conn_of s st) ++ more /\
      (closed (conn_of s st) = true -> more = []).
Proof.
  induction es as [|ev es IH]; intros st s.
  - exists []. cbn. rewrite app_nil_r. auto.
  - cbn [run fold_left]. fold (run es (step st ev)).
    destruct (step_wire st ev s) as (m1 & E1 & C1).
    destruct (IH (step st ev) s) as (m2 & E2 & C2).
    exists (m1 ++ m2). rewrite E2, E1, app_assoc. split; [reflexivity|].
    intros Hc. rewrite (C1 Hc), C2; [reflexivity|].
    apply (step_closed_frozen st ev s Hc).
Qed.

Transparent BUF_SIZE.
End RelayMore.

Import RelayMore.

(** The outcome of the relay is final: once [gather] has returned or
    raised, nothing that happens later on the two connections changes
    it, and so nothing changes what the handler does. *)
Theorem relay_outcome_is_final
    (w : env) (es es' : list event) (peer : peername) (port : Z) :
  gather_result (run es established) <> Pending ->
  gather_result (run (es ++ es') established) =
    gather_result (run es established) /\
  handle_connection w (es ++ es') peer port =
    handle_connection w es peer port.
Proof.
  intros Hg.
  assert (E : gather_result (run (es ++ es') established) =
              gather_result (run es established)).
  { rewrite run_app. apply run_gather_final; [|exact Hg].
    apply run_inv, established_inv. }
  split; [exact E|].
  unfold handle_connection.
  generalize (resolve_container_ip w). intros [t [ip|e|]];
    try reflexivity.
  unfold open_connection, gather_pipes. rewrite E.
  cbn [bind Monad_M]. unfold M_bind at 1 2. cbn [fst snd].
  reflexivity.
Qed.

(** The end of one stream takes the whole relay down.  When the source
    of a direction is at its end, by end of stream or by an error, and
    neither connection holds data back, that direction finishes by its
    own resumptions; then the other direction finishes by its own; after
    which both pipes are finished and both connections are closed.  If
    connections were lost with transport errors only, [gather] has
    returned normally. *)
Theorem relay_tears_down_both
    (es : list event) (d : dir) (n m : nat) :
  let st := run es established in
  let st1 := run (alone d n) st in
  let st2 := run (alone (other d) m) st1 in
  at_end (source d st) ->
  paused (client st) = false -> paused (upstream st) = false ->
  (enough d st <= n)%nat ->
  (enough (other d) st1 <= m)%nat ->
  finished (c2b st2) = true /\ finished (b2c st2) = true /\
  closed (client st2) = true /\ closed (upstream st2) = true /\
  (transport_errors_only es = true -> gather_result st2 = Returned).
Proof.
  intros st st1 st2 He Pc Pu Hn Hm.
  assert (I1 : inv st1) by (apply run_inv, run_inv, established_inv).
  assert (I2 : inv st2) by (apply run_inv, I1).
  assert (Pd : paused (dest d st) = false) by (destruct d; assumption).
  assert (Ps : paused (source d st) = false) by (destruct d; assumption).
  assert (F1 : finished (task d st1) = true).
  { apply alone_finishes; [exact He|exact Pd|].
    pose proof (todo_enough d st). lia. }
  destruct (inv_dir st1 d I1) as ((_ & _ & Hf) & (Hce & _) & _).
  destruct (Hf F1) as [Hc1 Hp1].
  assert (F2 : finished (task (other d) st2) = true).
  { apply alone_finishes.
    - rewrite source_other. apply Hce; assumption.
    - rewrite dest_other. unfold st1.
      rewrite (proj1 (alone_paused d n st)). exact Ps.
    - pose proof (todo_enough (other d) st1). lia. }
  assert (F1' : finished (task d st2) = true).
  { destruct (alone_frame (other d) m st1) as (Ht & _).
    rewrite other_other in Ht. unfold st2. rewrite Ht. exact F1. }
  destruct (inv_dir st2 d I2) as ((_ & _ & C1) & _).
  destruct (inv_dir st2 (other d) I2) as ((_ & _ & C2) & _).
  destruct (C1 F1') as [C1' _]. destruct (C2 F2) as [C2' _].
  rewrite dest_other in C2'.
  assert (Hboth : finished (c2b st2) = true /\ finished (b2c st2) = true /\
                  closed (client st2) = true /\ closed (upstream st2) = true).
  { destruct d; cbn in *; auto. }
  destruct Hboth as (B1 & B2 & B3 & B4).
  refine (conj B1 (conj B2 (conj B3 (conj B4 _)))).
  intros Ht.
  assert (T : tinv st2).
  { unfold st2, st1, st. rewrite <- !run_app. apply run_tinv;
      [|apply established_tinv].
    repeat apply transport_errors_app; auto;
      apply no_lost_transport, alone_lossless. }
  unfold gather_result. destruct T as (_ & _ & _ & _ & ->).
  rewrite B1, B2. reflexivity.
Qed.

(** What reaches a peer only grows, chunk by chunk.  One resumption of a
    direction appends one chunk of at most 65536 bytes to what its
    destination has taken.  Over any schedule, from any state, the bytes
    a connection has taken stay as they are and in place, more may follow
    them, and nothing follows once the connection is closed. *)
Theorem delivery_is_append_only (st : state) :
  (forall d, exists data,
     wire (dest d (step st (Run d))) = wire (dest d st) ++ data /\
     Z.of_nat (length data) <= 65536) /\
  (forall es s, exists more,
     wire (conn_of s (run es st)) = wire (conn_of s st) ++ more /\
     (closed (conn_of s st) = true -> more = [])).
Proof.
  split.
  - intros d. destruct d; cbn.
    + destruct (pipe_step (c2b st) (client st) (upstream st))
        as [[p' r'] w'] eqn:E.
      destruct (pipe_step_wire _ _ _ _ _ _ E) as (_ & data & Hw & Hl & _).
      exists data. split; [exact Hw|].
      change 65536 with BUF_SIZE. unfold BUF_SIZE in *. lia.
    + destruct (pipe_step (b2c st) (upstream st) (client st))
        as [[p' r'] w'] eqn:E.
      destruct (pipe_step_wire _ _ _ _ _ _ E) as (_ & data & Hw & Hl & _).
      exists data. split; [exact Hw|].
      change 65536 with BUF_SIZE. unfold BUF_SIZE in *. lia.
  - intros es s. apply run_wire.
Qed.

(** ** Further concrete runs *)

Lemma resolver_missing_keys_run :
  resolve_container_ip (world_described bare_descriptor) =
    ([Subprocess ps_argv 5; Subprocess (inspect_argv first_id) 5],
     Ret PNone).
Proof.
  apply (resolver_missing_keys (world_described bare_descriptor)
           (listing [first_id; second_id]) first_id [second_id] "[{...}]"
           [("Id", PStr first_id); ("Name", PStr "/mox")] []);
    try reflexivity.
  left. reflexivity.
Defined.

Lemma resolver_malformed_network_run :
  resolve_container_ip (world_described odd_descriptor) =
    ([Subprocess ps_argv 5; Subprocess (inspect_argv first_id) 5;
      debug_record AttributeError],
     Ret PNone).
Proof.
  apply (resolver_malformed_network (world_described odd_descriptor)
           (listing [first_id; second_id]) first_id [second_id] "[{...}]"
           [("NetworkSettings",
             PDict
               [("Networks",
                 PDict
                   [("none", PDict [("IPAddress", PStr EmptyString)]);
                    ("host", PNone);
                    ("mox", PDict [("IPAddress", PStr "10.89.0.5")])])])]
           []
           [("Networks",
             PDict
               [("none", PDict [("IPAddress", PStr EmptyString)]);
                ("host", PNone);
                ("mox", PDict [("IPAddress", PStr "10.89.0.5")])])]
           [("none", PDict [("IPAddress", PStr EmptyString)]);
            ("host", PNone);
            ("mox", PDict [("IPAddress", PStr "10.89.0.5")])]
           [("none", PDict [("IPAddress", PStr EmptyString)])]
           [("mox", PDict [("IPAddress", PStr "10.89.0.5")])]
           "host" PNone); reflexivity.
Defined.

Lemma resolver_malformed_descriptor_run :
  exists e,
    is_Exception e = true /\
    resolve_container_ip (world_described (PList [])) =
      ([Subprocess ps_argv 5; Subprocess (inspect_argv first_id) 5;
        debug_record e],
       Ret PNone).
Proof.
  apply (resolver_malformed_descriptor (world_described (PList []))
           (listing [first_id; second_id]) first_id [second_id] "[{...}]"
           (PList [])); reflexivity.
Defined.

Lemma handler_contains_failures_run :
  result (handle_connection
            (world_with (Some CancelledError) (fun _ => None) false)
            [] a_peer 9000) = Raise CancelledError /\
  is_Exception CancelledError = false.
Proof.
  split; [reflexivity|].
  exact (handler_contains_failures
           (world_with (Some CancelledError) (fun _ => None) false)
           [] a_peer 9000 CancelledError eq_refl eq_refl).
Defined.

Lemma handler_logs_closed_after_relay_run :
  handle_connection (world_with None (fun _ => None) false)
    half_close_schedule a_peer 9000 =
    ([Subprocess ps_argv 5; Subprocess (inspect_argv first_id) 5;
      dial_record a_peer 9000 bridge_ip; Connect bridge_ip 9000 5;
      closed_record a_peer 9000],
     Ret tt).
Proof.
  destruct (handler_logs_closed_after_relay
              (world_with None (fun _ => None) false)
              half_close_schedule a_peer 9000 bridge_ip
              eq_refl eq_refl eq_refl) as [H _].
  exact (proj1 (H eq_refl)).
Defined.

Lemma handler_closes_on_refusal_only_run :
  result (handle_connection world_refusing [] a_peer 9000) = Ret tt.
Proof.
  exact (proj2 (handler_closes_on_refusal_only world_refusing [] a_peer 9000)
           eq_refl).
Defined.

Lemma range_check_decides_run :
  check_ports [9000; 8080; 70000] =
    ([range_record 8080], Raise (SystemExit 1)) /\
  exit_status (result (check_ports [9000; 8080; 70000])) = Some 1.
Proof.
  apply (proj2 (range_check_decides [9000; 8080; 70000]) [9000] 8080 [70000]).
  - reflexivity.
  - intros p [<-|[]]. lia.
  - lia.
Defined.

Lemma valid_ports_are_served_run :
  filter is_Listen
    (trace (script world_refusing [script_name; "9000"; "9001"])) =
    [Listen "0.0.0.0" 9000; Listen "0.0.0.0" 9001] /\
  exit_status
    (result (script world_refusing [script_name; "9000"; "9001"])) =
    None.
Proof.
  destruct (valid_ports_are_served world_refusing
              [script_name; "9000"; "9001"] [9000; 9001]
              bridge_ip) as [H1 H2].
  - discriminate.
  - repeat constructor.
  - reflexivity.
  - repeat (apply NoDup_cons; [cbn; intuition discriminate|]).
    apply NoDup_nil.
  - reflexivity.
  - split; [exact H1|].
    exact (proj1 (proj2 (H2 (fun _ _ => eq_refl) eq_refl))).
Defined.

Lemma no_arguments_default_port_run :
  filter is_Listen (trace (script world_refusing [script_name])) =
    [Listen "0.0.0.0" 9000].
Proof.
  destruct (no_arguments_default_port world_refusing [script_name])
    as [_ H].
  - cbn. lia.
  - exact (H bridge_ip eq_refl).
Defined.


Lemma bind_failure_is_fatal_run :
  result (script (world_with None port_9001_in_use false)
            [script_name; "9000"; "9001"; "9002"]) = Raise (OSError 98) /\
  exit_status
    (result (script (world_with None port_9001_in_use false)
               [script_name; "9000"; "9001"; "9002"])) = Some 1.
Proof.
  destruct (bind_failure_is_fatal (world_with None port_9001_in_use false)
              [script_name; "9000"; "9001"; "9002"] [9000] [9002] 9001
              bridge_ip (OSError 98)) as (H1 & H2 & _).
  - discriminate.
  - repeat constructor.
  - reflexivity.
  - repeat (apply NoDup_cons; [cbn; intuition discriminate|]).
    apply NoDup_nil.
  - reflexivity.
  - intros q [<-|[<-|[]]]; reflexivity.
  - reflexivity.
  - reflexivity.
  - reflexivity.
  - split; [exact H1|exact H2].
Defined.

Lemma relay_outcome_is_final_run :
  gather_result
    (run (half_close_schedule ++ [Recv Client GET; Run B2C]) established) =
    Returned.
Proof.
  destruct (relay_outcome_is_final world_refusing half_close_schedule
              [Recv Client GET; Run B2C] a_peer 9000) as [H _].
  - vm_compute. discriminate.
  - rewrite H. reflexivity.
Defined.

Lemma relay_tears_down_both_run :
  closed (client (run teardown_schedule established)) = true /\
  closed (upstream (run teardown_schedule established)) = true /\
  gather_result (run teardown_schedule established) = Returned.
Proof.
  destruct (relay_tears_down_both reset_schedule C2B 3 3)
    as (_ & _ & H3 & H4 & H5).
  - right. vm_compute. discriminate.
  - reflexivity.
  - reflexivity.
  - vm_compute. lia.
  - vm_compute. lia.
  - unfold teardown_schedule. rewrite !run_app.
    split; [exact H3|split; [exact H4|exact (H5 eq_refl)]].
Defined.

Lemma resolution_failures_in_the_log_run :
  filter written
    (trace (handle_connection world_docker_timeout [] a_peer 9000)) =
    [refusal_record a_peer 9000].
Proof.
  exact (proj2 (resolution_failures_in_the_log world_docker_timeout []
                  a_peer 9000) eq_refl).
Defined.
